(** * Colour palette tool: the colour engine and its specification

    A shallow embedding of the colour-space converter ([ColorUtility]), the
    contrast evaluator ([AccessibilityChecker]) and the palette synthesiser
    ([PaletteGenerator]), followed by the properties claimed of them.

    JavaScript numbers are IEEE 754 binary64 values: they are embedded as
    Rocq's primitive [float], whose [+ - * /] and comparisons are the same
    operations.  Integers that the code only ever combines with integer
    arithmetic (the purpose hash) are embedded as [Z]; a hue seed is a
    number, since it is NaN when the base hue is. *)

From Stdlib Require Import ZArith Lia List String Ascii Bool Floats Uint63 Permutation.
Import ListNotations.

Set Warnings "-inexact-float".

Local Open Scope Z_scope.

(** ** JavaScript primitives used by the code *)

Module JS.

Definition number := float.

(** [Math.round]: the integer nearest to [x], a tie going towards +infinity.
    With [x = m * 2^(e - 2101)], [1/2 <= |m| < 1] and [M] the 53-bit mantissa
    of [m], one has [|x| = M / 2^(2154 - e)]; the rounding is an integer
    shift of [M]. Values of magnitude at least [2^52] are integers already;
    values in [[-1/2, 0)] round to [-0]. *)
Definition Math_round (x : number) : number :=
  if PrimFloat.is_nan x || PrimFloat.is_zero x || PrimFloat.is_infinity x then x
  else
    let (m, e) := frshiftexp x in
    if (2154 <=? e)%uint63 then x
    else if (e <=? 2100)%uint63 then (if (x <? 0)%float then neg_zero else zero)
    else
      let M := normfr_mantissa m in
      let k := (2154 - e)%uint63 in
      let half := (1 << (k - 1))%uint63 in
      if (x <? 0)%float
      then (- of_uint63 ((M + half - 1) >> k))%float
      else of_uint63 ((M + half) >> k).

Definition Math_abs (x : number) : number := abs x.

(** [Math.max] and [Math.min] of two numbers: NaN is contagious, and +0 counts
    as larger than -0 (the sum of two zeros is -0 only when both are). *)
Definition Math_max (x y : number) : number :=
  if PrimFloat.is_nan x || PrimFloat.is_nan y then nan
  else if (x <? y)%float then y
  else if (y <? x)%float then x
  else if PrimFloat.is_zero x then (x + y)%float else x.

Definition Math_min (x y : number) : number :=
  if PrimFloat.is_nan x || PrimFloat.is_nan y then nan
  else if (x <? y)%float then x
  else if (y <? x)%float then y
  else if PrimFloat.is_zero x then (- (- x - y))%float else x.

Definition Math_max3 (x y z : number) : number := Math_max (Math_max x y) z.
Definition Math_min3 (x y z : number) : number := Math_min (Math_min x y) z.

(** An integer as a number (exact below [2^53]). *)
Definition of_Z (z : Z) : number :=
  match z with
  | Z0 => zero
  | Zpos _ => of_uint63 (Uint63.of_Z z)
  | Zneg p => (- of_uint63 (Uint63.of_Z (Zpos p)))%float
  end.

(** The integer part of a number, towards zero (0 for NaN and infinities):
    with [x = m * 2^(e - 2101)] and [M] the 53-bit mantissa of [m],
    [|x| = M * 2^(e - 2154)]. *)
Definition trunc (x : number) : Z :=
  if PrimFloat.is_nan x || PrimFloat.is_zero x || PrimFloat.is_infinity x then 0
  else
    let (m, e) := frshiftexp x in
    let M := normfr_mantissa m in
    let magnitude :=
      if (e <=? 2101)%uint63 then 0
      else if (e <=? 2154)%uint63 then Uint63.to_Z (M >> (2154 - e))%uint63
      else Z.shiftl (Uint63.to_Z M) (Uint63.to_Z (e - 2154)%uint63) in
    if (x <? 0)%float then Z.opp magnitude else magnitude.

(** *** Strings *)

Definition is_digit (c : ascii) : bool :=
  let n := N_of_ascii c in (48 <=? n)%N && (n <=? 57)%N.
Definition is_lower_hex (c : ascii) : bool :=
  let n := N_of_ascii c in (97 <=? n)%N && (n <=? 102)%N.
Definition is_upper_hex (c : ascii) : bool :=
  let n := N_of_ascii c in (65 <=? n)%N && (n <=? 70)%N.
Definition is_hex_digit (c : ascii) : bool :=
  is_digit c || is_lower_hex c || is_upper_hex c.

(** Value of a radix-16 digit. *)
Definition hex_value (c : ascii) : option Z :=
  let n := Z.of_N (N_of_ascii c) in
  if is_digit c then Some (n - 48)
  else if is_lower_hex c then Some (n - 87)
  else if is_upper_hex c then Some (n - 55)
  else None.

(** White space skipped by [parseInt] (code units below 256). *)
Definition is_white_space (c : ascii) : bool :=
  let n := N_of_ascii c in
  ((9 <=? n)%N && (n <=? 13)%N) || (n =? 32)%N || (n =? 160)%N.

Fixpoint skip_white_space (s : string) : string :=
  match s with
  | String c s' => if is_white_space c then skip_white_space s' else s
  | EmptyString => s
  end.

(** The longest prefix of radix-16 digits, read as an integer; [None] when
    there is no digit. *)
Fixpoint hex_prefix (s : string) (acc : option Z) : option Z :=
  match s with
  | String c s' =>
      match hex_value c with
      | Some d => hex_prefix s' (Some (16 * match acc with Some a => a | None => 0 end + d))
      | None => acc
      end
  | EmptyString => acc
  end.

Definition strip_0x (s : string) : string :=
  match s with
  | String "0" (String ("x" | "X") s') => s'
  | _ => s
  end.

(** [parseInt(s, 16)]. *)
Definition parseInt16 (s : string) : number :=
  let s1 := skip_white_space s in
  let '(neg, s2) :=
    match s1 with
    | String "-" s' => (true, s')
    | String "+" s' => (false, s')
    | _ => (false, s1)
    end in
  match hex_prefix (strip_0x s2) None with
  | None => nan
  | Some n => if neg then (- of_Z n)%float else of_Z n
  end.

Definition hex_char (d : Z) : ascii :=
  ascii_of_N (Z.to_N (if d <? 10 then d + 48 else d + 87)).

(** Radix-16 digits of a positive integer, most significant first;
    [fuel] bounds the number of digits. *)
Fixpoint hex_digits (fuel : nat) (n : Z) (acc : string) : string :=
  match fuel with
  | O => acc
  | S fuel' =>
      let acc' := String (hex_char (n mod 16)) acc in
      if n / 16 =? 0 then acc' else hex_digits fuel' (n / 16) acc'
  end.

(** [x.toString(16)] for an integral (or non-finite) [x]; no caller passes a
    number with a fractional part. *)
Definition toString16 (x : number) : string :=
  if PrimFloat.is_nan x then "NaN"%string
  else if PrimFloat.is_infinity x then (if (x <? 0)%float then "-Infinity" else "Infinity")%string
  else
    let z := trunc x in
    let digits := hex_digits (S (Z.to_nat (Z.log2 (Z.abs z)))) (Z.abs z) "" in
    if z <? 0 then String "-" digits else digits.

Fixpoint repeat_char (c : ascii) (n : nat) : string :=
  match n with O => EmptyString | S n' => String c (repeat_char c n') end.

(** [s.padStart(n, c)] for a one-character pad string. *)
Definition padStart (s : string) (n : nat) (c : ascii) : string :=
  (repeat_char c (n - String.length s) ++ s)%string.

Definition upper_char (c : ascii) : ascii :=
  let n := N_of_ascii c in
  if (97 <=? n)%N && (n <=? 122)%N then ascii_of_N (n - 32) else c.

(** [s.toUpperCase()] on strings of ASCII characters (all that the code
    upper-cases). *)
Fixpoint toUpperCase (s : string) : string :=
  match s with
  | EmptyString => EmptyString
  | String c s' => String (upper_char c) (toUpperCase s')
  end.

(** [s.replace(/^#/, '')]. *)
Definition strip_hash (s : string) : string :=
  match s with
  | String "#" s' => s'
  | _ => s
  end.

(** [x % y] on integers: the sign follows the dividend. *)
Definition rem (x y : Z) : Z := Z.rem x y.

(** [n % d] on numbers: the remainder of the truncating division, computed
    exactly; its sign follows the dividend. *)
Definition number_rem (n d : number) : number :=
  match Prim2SF n, Prim2SF d with
  | S754_nan, _ | _, S754_nan => nan
  | S754_infinity _, _ => nan
  | _, S754_zero _ => nan
  | _, S754_infinity _ => n
  | S754_zero _, _ => n
  | S754_finite sn mn en, S754_finite _ md ed =>
      let e := Z.min en ed in
      let r := Z.rem (Zpos mn * 2 ^ (en - e)) (Zpos md * 2 ^ (ed - e)) in
      SF2Prim (binary_normalize prec emax (if sn then - r else r) e sn)
  end.

(** *** Object literals

    The tables of the code are object literals. A lookup [table[key]] finds
    the own property of that name; failing that, the member of that name
    which every object inherits from [Object.prototype]; failing that, it
    gives [undefined]. The inherited members are functions, and for
    [__proto__] the prototype object itself: all of them truthy, none of
    them a number or a string. *)
Definition inheritedKeys : list string :=
  [ "constructor"; "hasOwnProperty"; "isPrototypeOf"; "propertyIsEnumerable";
    "toLocaleString"; "toString"; "valueOf"; "__proto__";
    "__defineGetter__"; "__defineSetter__"; "__lookupGetter__";
    "__lookupSetter__" ]%string.

Inductive Member (A : Type) : Type :=
| Own (value : A)
| Inherited (key : string)
| Absent.

Arguments Own {A} value.
Arguments Inherited {A} key.
Arguments Absent {A}.

Fixpoint ownProperty {A : Type} (table : list (string * A)) (key : string) : option A :=
  match table with
  | [] => None
  | (k, value) :: rest => if (k =? key)%string then Some value else ownProperty rest key
  end.

Definition lookup {A : Type} (table : list (string * A)) (key : string) : Member A :=
  match ownProperty table key with
  | Some value => Own value
  | None => if existsb (String.eqb key) inheritedKeys then Inherited key else Absent
  end.

(** A string value or [undefined] ([None]), and its text in a template
    literal. *)
Definition text_of (value : option string) : string :=
  match value with
  | Some s => s
  | None => "undefined"%string
  end.

(** *** Completions: a call returns a value or throws. *)
Inductive Completion (A : Type) : Type :=
| Return (value : A)
| Throw (error : string).

Arguments Return {A} value.
Arguments Throw {A} error.

(** The calls of a loop in order: the first throw ends it. *)
Fixpoint sequence {A : Type} (calls : list (Completion A)) : Completion (list A) :=
  match calls with
  | [] => Return []
  | Throw error :: _ => Throw error
  | Return value :: rest =>
      match sequence rest with
      | Return values => Return (value :: values)
      | Throw error => Throw error
      end
  end.

End JS.

(** ** ColorUtility *)

Module ColorUtility.
Import JS.
Local Open Scope float_scope.

Record RGB := mkRGB { rgb_r : number; rgb_g : number; rgb_b : number }.
Record HSL := mkHSL { hsl_h : number; hsl_s : number; hsl_l : number }.

Definition hexToRgb (hex : string) : RGB :=
  let cleanHex := strip_hash hex in
  {| rgb_r := parseInt16 (substring 0 2 cleanHex);
     rgb_g := parseInt16 (substring 2 2 cleanHex);
     rgb_b := parseInt16 (substring 4 2 cleanHex) |}.

Definition toHex (value : number) : string :=
  padStart (toString16 (Math_round value)) 2 "0".

Definition rgbToHex (r g b : number) : string :=
  toUpperCase (String "#" (toHex r ++ toHex g ++ toHex b)).

Definition rgbToHsl (r g b : number) : HSL :=
  let r := r / 255 in
  let g := g / 255 in
  let b := b / 255 in
  let max := Math_max3 r g b in
  let min := Math_min3 r g b in
  let delta := max - min in
  let l := (max + min) / 2 in
  let '(h, s) :=
    if negb (delta =? 0) then
      let s := if 0.5 <? l then delta / (2 - max - min) else delta / (max + min) in
      let h :=
        if max =? r then ((g - b) / delta + (if g <? b then 6 else 0)) / 6
        else if max =? g then ((b - r) / delta + 2) / 6
        else if max =? b then ((r - g) / delta + 4) / 6
        else 0 in
      (h, s)
    else (0, 0) in
  {| hsl_h := Math_round (h * 360);
     hsl_s := Math_round (s * 100);
     hsl_l := Math_round (l * 100) |}.

Definition hue2rgb (p q t : number) : number :=
  let t := if t <? 0 then t + 1 else t in
  let t := if 1 <? t then t - 1 else t in
  if t <? 1 / 6 then p + (q - p) * 6 * t
  else if t <? 1 / 2 then q
  else if t <? 2 / 3 then p + (q - p) * (2 / 3 - t) * 6
  else p.

Definition hslToRgb (h s l : number) : RGB :=
  let h := h / 360 in
  let s := s / 100 in
  let l := l / 100 in
  let '(r, g, b) :=
    if s =? 0 then (l, l, l)
    else
      let q := if l <? 0.5 then l * (1 + s) else l + s - l * s in
      let p := 2 * l - q in
      (hue2rgb p q (h + 1 / 3), hue2rgb p q h, hue2rgb p q (h - 1 / 3)) in
  {| rgb_r := Math_round (r * 255);
     rgb_g := Math_round (g * 255);
     rgb_b := Math_round (b * 255) |}.

(** *** Adjustments and harmonies

    Each adjustment reads the colour as HSL, changes one component and
    re-encodes it. *)

Definition adjustHue (hex : string) (degrees : number) : string :=
  let rgb := hexToRgb hex in
  let hsl := rgbToHsl (rgb_r rgb) (rgb_g rgb) (rgb_b rgb) in
  let h := number_rem (hsl_h hsl + degrees) 360 in
  let h := if h <? 0 then h + 360 else h in
  let newRgb := hslToRgb h (hsl_s hsl) (hsl_l hsl) in
  rgbToHex (rgb_r newRgb) (rgb_g newRgb) (rgb_b newRgb).

Definition adjustSaturation (hex : string) (amount : number) : string :=
  let rgb := hexToRgb hex in
  let hsl := rgbToHsl (rgb_r rgb) (rgb_g rgb) (rgb_b rgb) in
  let s := Math_max 0 (Math_min 100 (hsl_s hsl + amount)) in
  let newRgb := hslToRgb (hsl_h hsl) s (hsl_l hsl) in
  rgbToHex (rgb_r newRgb) (rgb_g newRgb) (rgb_b newRgb).

Definition adjustLightness (hex : string) (amount : number) : string :=
  let rgb := hexToRgb hex in
  let hsl := rgbToHsl (rgb_r rgb) (rgb_g rgb) (rgb_b rgb) in
  let l := Math_max 0 (Math_min 100 (hsl_l hsl + amount)) in
  let newRgb := hslToRgb (hsl_h hsl) (hsl_s hsl) l in
  rgbToHex (rgb_r newRgb) (rgb_g newRgb) (rgb_b newRgb).

Definition generateAnalogous (baseHex : string) : list string :=
  [adjustHue baseHex (-30); baseHex; adjustHue baseHex 30].

Definition generateComplementary (baseHex : string) : string :=
  adjustHue baseHex 180.

Definition generateTriadic (baseHex : string) : list string :=
  [baseHex; adjustHue baseHex 120; adjustHue baseHex 240].

End ColorUtility.

(** ** AccessibilityChecker *)

Module AccessibilityChecker.
Import JS.
Local Open Scope float_scope.

Record Color := mkColor { hex : string; role : string; usage : string }.

(** A value of a palette's [colors] object: [findAccessiblePairs] accepts a
    bare hex string or a colour object. *)
Inductive ColorValue :=
| HexString (s : string)
| ColorObject (c : Color).

Record AccessiblePair := mkPair { text : string; background : string; ratio : number }.

Definition meetsWCAG_AA (contrastRatio : number) : bool := 4.5 <=? contrastRatio.
Definition meetsWCAG_AAA (contrastRatio : number) : bool := 7 <=? contrastRatio.

(** [typeof v === 'string' ? v : v.hex] *)
Definition hexOf (v : ColorValue) : string :=
  match v with
  | HexString s => s
  | ColorObject c => hex c
  end.

Section WithPow.

(** [Math.pow] is implementation-approximated: the contrast evaluator is
    stated for any such function. *)
Variable Math_pow : number -> number -> number.

Definition linearize (channel : number) : number :=
  if channel <=? 0.03928 then channel / 12.92
  else Math_pow ((channel + 0.055) / 1.055) 2.4.

Definition getRelativeLuminance (hex : string) : number :=
  let cleanHex := strip_hash hex in
  let r := parseInt16 (substring 0 2 cleanHex) / 255 in
  let g := parseInt16 (substring 2 2 cleanHex) / 255 in
  let b := parseInt16 (substring 4 2 cleanHex) / 255 in
  let rLinear := linearize r in
  let gLinear := linearize g in
  let bLinear := linearize b in
  0.2126 * rLinear + 0.7152 * gLinear + 0.0722 * bLinear.

Definition calculateContrastRatio (color1Hex color2Hex : string) : number :=
  let l1 := getRelativeLuminance color1Hex in
  let l2 := getRelativeLuminance color2Hex in
  let lighter := Math_max l1 l2 in
  let darker := Math_min l1 l2 in
  (lighter + 0.05) / (darker + 0.05).

(** The body of the inner loop at indices [i], [j]: the pair pushed, if any. *)
Definition pairAt (colorEntries : list (string * ColorValue)) (i j : nat)
  : list AccessiblePair :=
  if Nat.eqb i j then []
  else
    match nth_error colorEntries i, nth_error colorEntries j with
    | Some (_, textColor), Some (_, bgColor) =>
        let textHex := hexOf textColor in
        let bgHex := hexOf bgColor in
        let ratio := calculateContrastRatio textHex bgHex in
        if meetsWCAG_AA ratio
        then [ {| text := textHex; background := bgHex;
                  ratio := Math_round (ratio * 100) / 100 |} ]
        else []
    | _, _ => []
    end.

(** [findAccessiblePairs(palette)], on [Object.entries(palette.colors)]. *)
Definition findAccessiblePairs (colorEntries : list (string * ColorValue))
  : list AccessiblePair :=
  let n := List.length colorEntries in
  flat_map (fun i => flat_map (fun j => pairAt colorEntries i j) (seq 0 n)) (seq 0 n).

End WithPow.

End AccessibilityChecker.

(** ** PaletteGenerator *)

Module PaletteGenerator.
Import JS ColorUtility AccessibilityChecker.

(** The [colors] object of a generated palette: six own properties, in
    insertion order. *)
Record Colors := mkColors {
  primary : Color; secondary : Color; accent : Color;
  background : Color; surface : Color; text : Color }.

Definition Object_entries (c : Colors) : list (string * Color) :=
  [ ("primary", primary c); ("secondary", secondary c); ("accent", accent c);
    ("background", background c); ("surface", surface c); ("text", text c) ]%string.

Record Palette := mkPalette {
  name : string; vibe : string; colors : Colors;
  accessiblePairs : list AccessiblePair }.

Record Preferences := mkPreferences {
  appType : string; purpose : string; colorMood : string }.

Local Open Scope float_scope.

(** [rgbToHex(...Object.values(hslToRgb(h, s, l)))]. *)
Definition hslHex (h s l : number) : string :=
  let rgb := hslToRgb h s l in
  rgbToHex (rgb_r rgb) (rgb_g rgb) (rgb_b rgb).

Definition mkPaletteColors (p s a bg sf tx : string) : Colors :=
  {| primary := mkColor p "primary" "Use for main buttons and CTAs";
     secondary := mkColor s "secondary" "Use for secondary actions and highlights";
     accent := mkColor a "accent" "Use for important UI elements and notifications";
     background := mkColor bg "background" "Use for main page background";
     surface := mkColor sf "surface" "Use for cards and elevated surfaces";
     text := mkColor tx "text" "Use for body text and headings" |}.

(** The seed hue of a generator is a number: an integer of [[0, 360)] in
    ordinary runs, NaN when the base hue is (every comparison with NaN is
    false and [NaN % n] is NaN). *)
Definition generateWarmPalette (seedHue : number) : Colors :=
  let warmHue :=
    if (90 <? seedHue) && (seedHue <? 330) then number_rem seedHue 60 else seedHue in
  let warmHue :=
    if (60 <? warmHue) && (warmHue <? 330) then number_rem warmHue 60 else warmHue in
  let primary := hslHex warmHue 70 55 in
  let secondaryHue := number_rem (warmHue + 20) 60 in
  let secondary := hslHex secondaryHue 65 60 in
  let accentHue := number_rem (warmHue + 40) 60 in
  let accent := hslHex accentHue 80 50 in
  let background := hslHex warmHue 20 95 in
  let surface := hslHex warmHue 15 98 in
  mkPaletteColors primary secondary accent background surface "#1A1A1A".

Definition generateCoolPalette (seedHue : number) : Colors :=
  let coolHue :=
    if (seedHue <? 150) || (330 <? seedHue) then 150 + number_rem seedHue 180
    else seedHue in
  let coolHue :=
    if (coolHue <? 150) || (330 <? coolHue) then 150 + number_rem coolHue 180
    else coolHue in
  let primary := hslHex coolHue 65 50 in
  let secondaryHue := 150 + number_rem (coolHue - 150 + 40) 180 in
  let secondary := hslHex secondaryHue 60 55 in
  let accentHue := 150 + number_rem (coolHue - 150 + 80) 180 in
  let accent := hslHex accentHue 75 45 in
  let background := hslHex coolHue 15 96 in
  let surface := hslHex coolHue 10 99 in
  mkPaletteColors primary secondary accent background surface "#1A1A1A".

Definition generatePastelPalette (seedHue : number) : Colors :=
  let primary := hslHex seedHue 45 75 in
  let secondary := hslHex (number_rem (seedHue + 60) 360) 40 78 in
  let accent := hslHex (number_rem (seedHue + 120) 360) 48 72 in
  let background := hslHex seedHue 25 95 in
  let surface := hslHex seedHue 20 98 in
  mkPaletteColors primary secondary accent background surface "#2A2A2A".

Definition generateDarkModePalette (seedHue : number) : Colors :=
  let primary := hslHex seedHue 70 60 in
  let secondary := hslHex (number_rem (seedHue + 30) 360) 65 55 in
  let accent := hslHex (number_rem (seedHue + 60) 360) 80 65 in
  let background := hslHex seedHue 10 12 in
  let surface := hslHex seedHue 8 18 in
  mkPaletteColors primary secondary accent background surface "#F5F5F5".

(** The two stand-alone generators ([generate] does not call them). *)
Definition generateProfessionalPalette (seedHue : number) : Colors :=
  let professionalHue :=
    if (seedHue <? 180) || (270 <? seedHue) then 210 + number_rem seedHue 30
    else seedHue in
  let primary := hslHex professionalHue 55 50 in
  let secondary := hslHex professionalHue 45 55 in
  let accent := hslHex (number_rem (professionalHue + 20) 360) 58 48 in
  let background := hslHex professionalHue 10 97 in
  let surface := hslHex professionalHue 8 99 in
  mkPaletteColors primary secondary accent background surface "#1A1A1A".

Definition generatePlayfulPalette (seedHue : number) : Colors :=
  let primary := hslHex seedHue 75 55 in
  let secondary := hslHex (number_rem (seedHue + 90) 360) 70 58 in
  let accent := hslHex (number_rem (seedHue + 180) 360) 85 60 in
  let background := hslHex seedHue 30 96 in
  let surface := hslHex seedHue 25 99 in
  mkPaletteColors primary secondary accent background surface "#1A1A1A".

Local Close Scope float_scope.

(** The loop over [Object.entries(palette.colors)] that rebuilds every entry
    under its own key. *)
Definition mapEntries (f : string -> Color -> Color) (c : Colors) : Colors :=
  {| primary := f "primary"%string (primary c);
     secondary := f "secondary"%string (secondary c);
     accent := f "accent"%string (accent c);
     background := f "background"%string (background c);
     surface := f "surface"%string (surface c);
     text := f "text"%string (text c) |}.

Definition isNeutralRole (role : string) : bool :=
  (role =? "text")%string || (role =? "background")%string || (role =? "surface")%string.

(** The HSL triple that the professional adjustment re-encodes. *)
Definition professionalHsl (role : string) (c : Color) : HSL :=
  let rgb := hexToRgb (hex c) in
  let hsl := rgbToHsl (rgb_r rgb) (rgb_g rgb) (rgb_b rgb) in
  if negb (isNeutralRole role)
  then {| hsl_h := hsl_h hsl; hsl_s := Math_min (hsl_s hsl) 58%float; hsl_l := hsl_l hsl |}
  else hsl.

Definition encodeHsl (hsl : HSL) (c : Color) : Color :=
  let newRgb := hslToRgb (hsl_h hsl) (hsl_s hsl) (hsl_l hsl) in
  {| hex := rgbToHex (rgb_r newRgb) (rgb_g newRgb) (rgb_b newRgb);
     role := role c; usage := usage c |}.

Definition _applyProfessionalAdjustments (c : Colors) : Colors :=
  mapEntries (fun role color => encodeHsl (professionalHsl role color) color) c.

Definition playfulHsl (role : string) (c : Color) : HSL :=
  let rgb := hexToRgb (hex c) in
  let hsl := rgbToHsl (rgb_r rgb) (rgb_g rgb) (rgb_b rgb) in
  if (role =? "accent")%string && (50 <=? hsl_s hsl)%float
  then {| hsl_h := hsl_h hsl; hsl_s := Math_max (hsl_s hsl) 65%float;
          hsl_l := Math_max (hsl_l hsl) 52%float |}
  else hsl.

Definition _applyPlayfulAdjustments (c : Colors) : Colors :=
  mapEntries (fun role color => encodeHsl (playfulHsl role color) color) c.

(** [x | 0]: a mathematical integer wrapped to 32-bit two's complement. *)
Definition ToInt32 (z : Z) : Z := (z + 2 ^ 31) mod 2 ^ 32 - 2 ^ 31.

Definition charCode (c : ascii) : Z := Z.of_N (N_of_ascii c).

(** One iteration of the hash loop:
    [hash = ((hash << 5) - hash) + purpose.charCodeAt(i); hash = hash & hash]. *)
Definition hashStep (hash : Z) (c : ascii) : Z :=
  let hash := (ToInt32 (ToInt32 hash * 2 ^ 5) - hash) + charCode c in
  ToInt32 hash.

Fixpoint hashLoop (purpose : string) (hash : Z) : Z :=
  match purpose with
  | EmptyString => hash
  | String c rest => hashLoop rest (hashStep hash c)
  end.

(** [typeHueMap]: the hue of each mapped application type. *)
Definition typeHueMap : list (string * Z) :=
  [ ("web-dashboard", 210); ("mobile-app", 280); ("portfolio", 180);
    ("e-commerce", 350); ("saas", 200); ("professional", 220);
    ("playful", 30) ]%string.

(** [_generateBaseHue]. With [baseHue = typeHueMap[appType] || 200] a number,
    the result is an integer; with an inherited member, [baseHue + variation
    + 360] is the text of that member followed by digits, which is no
    numeric literal, and [% 360] makes it NaN. *)
Definition _generateBaseHue (appType purpose : string) : number :=
  let hash := hashLoop purpose 0 in
  let variation := Z.abs (rem hash 60) - 30 in
  match lookup typeHueMap appType with
  | Own hue => of_Z (rem ((if hue =? 0 then 200 else hue) + variation + 360) 360)
  | Absent => of_Z (rem (200 + variation + 360) 360)
  | Inherited _ => nan
  end.

Definition coolNames : list string :=
  ["Ocean Breeze"; "Arctic Frost"; "Mountain Mist"]%string.

Definition moodNames : list (string * list string) :=
  [ ("warm", ["Sunset Glow"; "Autumn Warmth"; "Desert Heat"]);
    ("cool", coolNames);
    ("pastel", ["Soft Dreams"; "Gentle Touch"; "Cloud Nine"]);
    ("dark", ["Midnight Sky"; "Shadow Depths"; "Cosmic Night"]) ]%string.

Definition typeModifiers : list (string * string) :=
  [ ("professional", "Professional"); ("web-dashboard", "Dashboard");
    ("mobile-app", "Mobile"); ("portfolio", "Creative");
    ("e-commerce", "Commerce"); ("saas", "Enterprise");
    ("playful", "Playful") ]%string.

Definition moodDescriptions : list (string * string) :=
  [ ("warm", "warm and inviting"); ("cool", "cool and calming");
    ("pastel", "soft and gentle"); ("dark", "bold and modern") ]%string.

Definition typeDescriptions : list (string * string) :=
  [ ("professional", "professional appeal"); ("web-dashboard", "data-focused clarity");
    ("mobile-app", "mobile-friendly design"); ("portfolio", "creative expression");
    ("e-commerce", "conversion-optimized"); ("saas", "enterprise reliability");
    ("playful", "playful energy") ]%string.

Section WithText.

(** The text that an inherited member is converted to in a template literal:
    implementation-defined for the functions. *)
Variable inheritedText : string -> string.

(** [_generatePaletteName]: a string, or [undefined] ([None]).
    [(moodNames[colorMood] || moodNames.cool)[index]] is [undefined] when the
    index is out of range and when the mood is an inherited name (a function
    has no property [0]). An inherited modifier is truthy. *)
Definition _generatePaletteName (colorMood appType : string) (index : nat) : option string :=
  let baseName :=
    match lookup moodNames colorMood with
    | Own names => nth_error names index
    | Inherited _ => None
    | Absent => nth_error coolNames index
    end in
  match lookup typeModifiers appType with
  | Own modifier =>
      if (modifier =? "")%string then baseName
      else Some (text_of baseName ++ " " ++ modifier)%string
  | Inherited key => Some (text_of baseName ++ " " ++ inheritedText key)%string
  | Absent => baseName
  end.

(** [_generateVibeDescription]: with an inherited mood, [mood] is not a
    string and [mood.charAt] is not a function: the call throws. *)
Definition _generateVibeDescription (colorMood appType : string) : Completion string :=
  let type :=
    match lookup typeDescriptions appType with
    | Own t => if (t =? "")%string then "versatile application"%string else t
    | Inherited key => inheritedText key
    | Absent => "versatile application"%string
    end in
  let describe (mood : string) : Completion string :=
    Return (toUpperCase (substring 0 1 mood)
            ++ substring 1 (String.length mood - 1) mood ++ " with " ++ type)%string in
  match lookup moodDescriptions colorMood with
  | Own mood => describe (if (mood =? "")%string then "balanced and harmonious"%string else mood)
  | Inherited _ => Throw "TypeError: mood.charAt is not a function"
  | Absent => describe "balanced and harmonious"%string
  end.

End WithText.

(** The mood branch of [generate]; any other mood defaults to cool. *)
Definition moodPalette (colorMood : string) (seed : number) : Colors :=
  if (colorMood =? "warm")%string then generateWarmPalette seed
  else if (colorMood =? "cool")%string then generateCoolPalette seed
  else if (colorMood =? "pastel")%string then generatePastelPalette seed
  else if (colorMood =? "dark")%string then generateDarkModePalette seed
  else generateCoolPalette seed.

(** The application-type branch of [generate]. *)
Definition typeAdjust (appType : string) (c : Colors) : Colors :=
  if (appType =? "professional")%string || (appType =? "web-dashboard")%string
     || (appType =? "saas")%string
  then _applyProfessionalAdjustments c
  else if (appType =? "playful")%string || (appType =? "mobile-app")%string
  then _applyPlayfulAdjustments c
  else c.

Section WithPow.

Variable Math_pow : number -> number -> number.
Variable inheritedText : string -> string.

(** The body of the loop of [generate] for index [i] and its seed: the
    colours, the name, the vibe (which can throw), the accessible pairs.
    The name is a string whenever the vibe is returned. *)
Definition generateOne (preferences : Preferences) (i : nat) (seed : number)
  : Completion Palette :=
  let c := typeAdjust (appType preferences) (moodPalette (colorMood preferences) seed) in
  let name := _generatePaletteName inheritedText (colorMood preferences)
                (appType preferences) i in
  match _generateVibeDescription inheritedText (colorMood preferences)
          (appType preferences) with
  | Throw error => Throw error
  | Return vibe =>
      Return {| name := text_of name;
                vibe := vibe;
                colors := c;
                accessiblePairs :=
                  findAccessiblePairs Math_pow
                    (map (fun e => (fst e, ColorObject (snd e))) (Object_entries c)) |}
  end.

Definition seedsOf (baseHue : number) : list number :=
  [baseHue; number_rem (baseHue + 120) 360; number_rem (baseHue + 240) 360]%float.

Definition generate (preferences : Preferences) : Completion (list Palette) :=
  let baseHue := _generateBaseHue (appType preferences) (purpose preferences) in
  let seeds := seedsOf baseHue in
  sequence (map (fun i => generateOne preferences i (nth i seeds nan)) (seq 0 3)).

End WithPow.

End PaletteGenerator.

(** ** ExportManager

    The two line-based export formats. *)

Module ExportManager.
Import JS AccessibilityChecker PaletteGenerator.
Local Open Scope string_scope.

(** The line feed of ['\n']. *)
Definition LF : ascii := ascii_of_nat 10.

(** [lines.join(sep)]. *)
Fixpoint join (sep : string) (lines : list string) : string :=
  match lines with
  | [] => ""
  | [line] => line
  | line :: rest => line ++ sep ++ join sep rest
  end.

Definition exportAsCSS (palette : Palette) : string :=
  let lines :=
    List.app (":root {"
              :: map (fun e => "  --color-" ++ fst e ++ ": " ++ hex (snd e) ++ ";")
                     (Object_entries (colors palette)))
             ["}"] in
  join (String LF "") lines.

Definition exportAsPlainText (palette : Palette) : string :=
  let lines :=
    List.app
      ["Palette: " ++ name palette; "Vibe: " ++ vibe palette; ""; "Colors:"]
      (map (fun e =>
              let role := fst e in
              let roleName := toUpperCase (substring 0 1 role)
                              ++ substring 1 (String.length role - 1) role in
              "  " ++ roleName ++ ": " ++ hex (snd e))
           (Object_entries (colors palette))) in
  join (String LF "") lines.

End ExportManager.

(** * Properties *)

Import JS ColorUtility AccessibilityChecker PaletteGenerator.

(** ** The preference-to-seed mapper *)

(** The hash as the specification words it: [hash * 31 + charCode], wrapped
    to a signed 32-bit integer after every character. *)
Fixpoint rollingHash (purpose : string) (hash : Z) : Z :=
  match purpose with
  | EmptyString => hash
  | String c rest => rollingHash rest (ToInt32 (hash * 31 + charCode c))
  end.

(** The base hue of an application type as the specification words it: the
    fixed hue of each of the seven mapped types, 200 for any other type. *)
Definition specTypeHue (appType : string) : Z :=
  if (appType =? "web-dashboard")%string then 210
  else if (appType =? "mobile-app")%string then 280
  else if (appType =? "portfolio")%string then 180
  else if (appType =? "e-commerce")%string then 350
  else if (appType =? "saas")%string then 200
  else if (appType =? "professional")%string then 220
  else if (appType =? "playful")%string then 30
  else 200.

(** The base hue as the specification words it. *)
Definition specBaseHue (appType purpose : string) : Z :=
  (specTypeHue appType + (Z.abs (Z.rem (rollingHash purpose 0) 60) - 30) + 360) mod 360.

(** A key that is not the name of a member inherited from
    [Object.prototype]: a lookup of it finds an own property or nothing. *)
Definition ownKeyOnly (key : string) : bool :=
  negb (existsb (String.eqb key) inheritedKeys).

Definition plainPreferences (preferences : Preferences) : bool :=
  ownKeyOnly (appType preferences) && ownKeyOnly (colorMood preferences).

Lemma ToInt32_mod (a b : Z) :
  a mod 2 ^ 32 = b mod 2 ^ 32 -> ToInt32 a = ToInt32 b.
Proof.
  intros E. unfold ToInt32.
  rewrite (Z.add_mod a), (Z.add_mod b), E by lia. reflexivity.
Qed.

Lemma ToInt32_congr (a : Z) : ToInt32 a mod 2 ^ 32 = a mod 2 ^ 32.
Proof.
  unfold ToInt32.
  rewrite Zminus_mod, Zmod_mod, <- Zminus_mod.
  f_equal. lia.
Qed.

Lemma ToInt32_range (a : Z) : - 2 ^ 31 <= ToInt32 a < 2 ^ 31.
Proof.
  unfold ToInt32.
  pose proof (Z.mod_pos_bound (a + 2 ^ 31) (2 ^ 32) ltac:(lia)). lia.
Qed.

Lemma hashStep_rolling (hash : Z) (c : ascii) :
  hashStep hash c = ToInt32 (hash * 31 + charCode c).
Proof.
  unfold hashStep. apply ToInt32_mod.
  rewrite Z.add_mod, Zminus_mod, ToInt32_congr by lia.
  rewrite Z.mul_mod, ToInt32_congr, <- Z.mul_mod by lia.
  rewrite <- Zminus_mod, <- Z.add_mod by lia.
  f_equal. lia.
Qed.

Lemma hashLoop_rolling (purpose : string) (hash : Z) :
  hashLoop purpose hash = rollingHash purpose hash.
Proof.
  revert hash. induction purpose as [|c rest IH]; intros hash; simpl.
  - reflexivity.
  - rewrite hashStep_rolling. apply IH.
Qed.

Lemma specTypeHue_values (appType : string) :
  In (specTypeHue appType) [210; 280; 180; 350; 200; 220; 30].
Proof.
  unfold specTypeHue.
  repeat match goal with
         | |- context [if ?b then _ else _] => destruct b
         end; simpl; tauto.
Qed.

Lemma variation_range (hash : Z) : -30 <= Z.abs (Z.rem hash 60) - 30 <= 29.
Proof.
  pose proof (Z.rem_bound_abs hash 60 ltac:(lia)) as Hb.
  pose proof (Z.abs_nonneg (Z.rem hash 60)). lia.
Qed.

Lemma specBaseHue_range (appType purpose : string) : 0 <= specBaseHue appType purpose < 360.
Proof. apply Z.mod_pos_bound. lia. Qed.

(** What the lookup of an application type in [typeHueMap] finds. *)
Lemma lookup_typeHueMap (appType : string) :
  match lookup typeHueMap appType with
  | Own hue => ownKeyOnly appType = true /\ hue = specTypeHue appType /\ hue <> 0
  | Absent => ownKeyOnly appType = true /\ specTypeHue appType = 200
  | Inherited key => ownKeyOnly appType = false /\ key = appType
  end.
Proof.
  unfold lookup, typeHueMap, ownProperty, specTypeHue, ownKeyOnly.
  rewrite !(String.eqb_sym appType).
  repeat match goal with
         | |- context [String.eqb ?k appType] =>
             destruct (String.eqb_spec k appType) as [<-|]; [repeat split; discriminate|]
         end.
  destruct (existsb (String.eqb appType) inheritedKeys); repeat split.
Qed.

(** On an application type that is not an inherited name the code computes
    the base hue of the specification. *)
Lemma generateBaseHue_plain (appType purpose : string) :
  ownKeyOnly appType = true ->
  _generateBaseHue appType purpose = of_Z (specBaseHue appType purpose).
Proof.
  intros Hown. unfold _generateBaseHue, specBaseHue, rem. rewrite hashLoop_rolling.
  pose proof (variation_range (rollingHash purpose 0)) as Hv.
  pose proof (specTypeHue_values appType) as Hin. simpl in Hin.
  pose proof (lookup_typeHueMap appType) as L.
  destruct (lookup typeHueMap appType) as [hue|key|].
  - destruct L as (_ & -> & Hnz). apply Z.eqb_neq in Hnz. rewrite Hnz.
    f_equal. apply Z.rem_mod_nonneg; intuition lia.
  - destruct L as [L _]. congruence.
  - destruct L as [_ L]. rewrite L.
    f_equal. apply Z.rem_mod_nonneg; lia.
Qed.

(** On an inherited name the base hue is NaN. *)
Lemma generateBaseHue_nan (appType purpose : string) :
  ownKeyOnly appType = false -> _generateBaseHue appType purpose = nan.
Proof.
  intros Hown. unfold _generateBaseHue.
  pose proof (lookup_typeHueMap appType) as L.
  destruct (lookup typeHueMap appType) as [hue|key|].
  - destruct L as [L _]. congruence.
  - reflexivity.
  - destruct L as [L _]. congruence.
Qed.

(** The integers of [[0, 360)]. *)
Definition hueRange : list Z := map Z.of_nat (seq 0 360).

Lemma in_hueRange (z : Z) : 0 <= z < 360 -> In z hueRange.
Proof.
  intros Hz. unfold hueRange.
  replace z with (Z.of_nat (Z.to_nat z)) by lia.
  apply in_map, in_seq. lia.
Qed.

Lemma hue_not_nan : forallb (fun b => negb (PrimFloat.is_nan (of_Z b))) hueRange = true.
Proof. vm_compute. reflexivity. Qed.

(** C9 fails on the code. The specification gives every application type
    that is not one of the seven mapped ones the base hue 200, so an integer
    of [[0, 360)] for every purpose. For the twelve names that an object
    literal inherits ([constructor], [toString], [__proto__], ...) the lookup
    [typeHueMap[appType]] finds the inherited member, [|| 200] is not taken,
    and [_generateBaseHue] returns NaN, whatever the purpose. *)
Theorem generateBaseHue_inherited (purpose : string) :
  Forall (fun appType =>
            specTypeHue appType = 200
            /\ 0 <= specBaseHue appType purpose < 360
            /\ PrimFloat.is_nan (of_Z (specBaseHue appType purpose)) = false
            /\ _generateBaseHue appType purpose = nan)
         inheritedKeys.
Proof.
  apply Forall_forall. intros appType Hin.
  pose proof (specBaseHue_range appType purpose) as Hr.
  assert (Hown : ownKeyOnly appType = false).
  { cbn [inheritedKeys In] in Hin.
    repeat (destruct Hin as [<-|Hin]; [reflexivity|]). destruct Hin. }
  assert (Hspec : specTypeHue appType = 200).
  { cbn [inheritedKeys In] in Hin.
    repeat (destruct Hin as [<-|Hin]; [reflexivity|]). destruct Hin. }
  repeat split; try lia; try assumption.
  - pose proof hue_not_nan as A. rewrite forallb_forall in A.
    specialize (A _ (in_hueRange _ Hr)). now apply negb_true_iff in A.
  - apply generateBaseHue_nan, Hown.
Qed.

(** X23. On every application type that is not an inherited name the code
    agrees with the specification: the base hue is the integer
    [(typeHue + variation + 360) mod 360] of [[0, 360)], where [typeHue] is
    the hue of the mapped type or 200, [variation = |hash % 60| - 30] lies in
    [[-30, 29]] and [hash] is the rolling hash wrapped to 32 bits at each
    step. *)
Theorem generateBaseHue_spec (appType purpose : string)
    (Hown : ownKeyOnly appType = true) :
  let hash := rollingHash purpose 0 in
  let variation := Z.abs (Z.rem hash 60) - 30 in
  -30 <= variation <= 29
  /\ 0 <= (specTypeHue appType + variation + 360) mod 360 < 360
  /\ _generateBaseHue appType purpose
     = of_Z ((specTypeHue appType + variation + 360) mod 360).
Proof.
  intros hash variation. split; [apply variation_range|].
  split; [apply Z.mod_pos_bound; lia | apply (generateBaseHue_plain _ _ Hown)].
Qed.

Lemma generateBaseHue_spec_witness :
  _generateBaseHue "web-dashboard" "Z" = of_Z 210.
Proof. apply (generateBaseHue_spec "web-dashboard" "Z"). reflexivity. Defined.

(** ** Hex strings *)

Fixpoint all_hex (s : string) : bool :=
  match s with
  | EmptyString => true
  | String c rest => is_hex_digit c && all_hex rest
  end.

(** A well-formed hex string: an optional leading [#], then six radix-16
    digits of either case. *)
Definition wellFormedHex (h : string) : bool :=
  let digits := strip_hash h in
  (String.length digits =? 6)%nat && all_hex digits.

(** A hex string as the palette data model wants it: [#] then six upper-case
    radix-16 digits. *)
Definition is_upper_digit (c : ascii) : bool := is_digit c || is_upper_hex c.

Fixpoint all_upper_digits (s : string) : bool :=
  match s with
  | EmptyString => true
  | String c rest => is_upper_digit c && all_upper_digits rest
  end.

Definition canonicalHex (h : string) : bool :=
  match h with
  | String "#" digits => (String.length digits =? 6)%nat && all_upper_digits digits
  | _ => false
  end.

Definition hexChars : list ascii :=
  list_ascii_of_string "0123456789abcdefABCDEF".

Definition two (c1 c2 : ascii) : string := String c1 (String c2 EmptyString).

Lemma is_hex_digit_In (c : ascii) : is_hex_digit c = true -> In c hexChars.
Proof.
  destruct c as [b0 b1 b2 b3 b4 b5 b6 b7].
  destruct b0, b1, b2, b3, b4, b5, b6, b7; intros H;
    try (vm_compute in H; discriminate H); simpl; tauto.
Qed.

(** Parsing two digits and printing the channel back gives the digits,
    lower-cased by [toString(16)], hence upper-cased by [toUpperCase]. *)
Definition pairRoundTrips (c1 c2 : ascii) : bool :=
  (toUpperCase (toHex (parseInt16 (two c1 c2))) =? two (upper_char c1) (upper_char c2))%string.

Lemma pairRoundTrips_all :
  forallb (fun c1 => forallb (pairRoundTrips c1) hexChars) hexChars = true.
Proof. vm_compute. reflexivity. Qed.

Lemma toHex_parseInt16 (c1 c2 : ascii) :
  is_hex_digit c1 = true -> is_hex_digit c2 = true ->
  toUpperCase (toHex (parseInt16 (two c1 c2))) = two (upper_char c1) (upper_char c2).
Proof.
  intros H1 H2. apply is_hex_digit_In in H1, H2.
  pose proof pairRoundTrips_all as A.
  rewrite forallb_forall in A. specialize (A c1 H1).
  rewrite forallb_forall in A. specialize (A c2 H2).
  apply String.eqb_eq. exact A.
Qed.

Lemma toUpperCase_app (s t : string) :
  toUpperCase (s ++ t) = (toUpperCase s ++ toUpperCase t)%string.
Proof. induction s as [|c s IH]; simpl; [reflexivity | now rewrite IH]. Qed.

(** C6. For every well-formed hex string, [rgbToHex] of the channels of
    [hexToRgb] is [#] followed by the six digits in upper case. *)
Theorem hexToRgb_rgbToHex (h : string) (Hwf : wellFormedHex h = true) :
  let rgb := hexToRgb h in
  rgbToHex (rgb_r rgb) (rgb_g rgb) (rgb_b rgb)
  = String "#" (toUpperCase (strip_hash h)).
Proof.
  unfold wellFormedHex in Hwf. apply andb_true_iff in Hwf as [Hlen Hall].
  apply Nat.eqb_eq in Hlen.
  unfold hexToRgb. cbv zeta. simpl rgb_r. simpl rgb_g. simpl rgb_b.
  destruct (strip_hash h) as [|c1 [|c2 [|c3 [|c4 [|c5 [|c6 [|c7 rest]]]]]]];
    try discriminate Hlen.
  simpl in Hall.
  repeat match goal with
         | H : _ && _ = true |- _ => apply andb_true_iff in H as [? H]
         end.
  unfold rgbToHex. simpl substring.
  change (String c1 (String c2 EmptyString)) with (two c1 c2).
  change (String c3 (String c4 EmptyString)) with (two c3 c4).
  change (String c5 (String c6 EmptyString)) with (two c5 c6).
  change (toUpperCase (String "#" ?s)) with (String "#" (toUpperCase s)).
  cbn [toUpperCase]. change (upper_char "#") with "#"%char.
  rewrite !toUpperCase_app, !toHex_parseInt16 by assumption.
  reflexivity.
Qed.

Lemma hexToRgb_rgbToHex_witness :
  wellFormedHex "#ff57aB" = true
  /\ (let rgb := hexToRgb "#ff57aB" in
      rgbToHex (rgb_r rgb) (rgb_g rgb) (rgb_b rgb)) = "#FF57AB"%string.
Proof.
  split; [reflexivity | apply (hexToRgb_rgbToHex "#ff57aB"); reflexivity].
Defined.

(** ** Generated palettes: reduction to the seed hues *)

Lemma rem_360_range (z : Z) : 0 <= z -> 0 <= rem z 360 < 360.
Proof.
  intros Hz. unfold rem. rewrite Z.rem_mod_nonneg by lia.
  apply Z.mod_pos_bound. lia.
Qed.

(** On the integers of [[0, 360)] the two further seeds are computed
    exactly. *)
Definition seedsExact (b : Z) : bool :=
  PrimFloat.Leibniz.eqb (number_rem (of_Z b + 120)%float 360%float) (of_Z ((b + 120) mod 360))
  && PrimFloat.Leibniz.eqb (number_rem (of_Z b + 240)%float 360%float) (of_Z ((b + 240) mod 360)).

Lemma seeds_exact : forallb seedsExact hueRange = true.
Proof. vm_compute. reflexivity. Qed.

Lemma seedsOf_int (b : Z) :
  0 <= b < 360 ->
  seedsOf (of_Z b) = [of_Z b; of_Z ((b + 120) mod 360); of_Z ((b + 240) mod 360)].
Proof.
  intros Hb. pose proof seeds_exact as A. rewrite forallb_forall in A.
  specialize (A b (in_hueRange b Hb)). unfold seedsExact in A.
  apply andb_true_iff in A as [A1 A2].
  apply FloatAxioms.Leibniz.eqb_spec in A1, A2.
  unfold seedsOf. now rewrite A1, A2.
Qed.

Lemma seedsOf_nan : seedsOf nan = [nan; nan; nan].
Proof. reflexivity. Qed.

(** The seeds of a [generate] call: three integers of [[0, 360)], or three
    times NaN when the application type is an inherited name. *)
Lemma seeds_cases (appType purpose : string) :
  (ownKeyOnly appType = true
   /\ seedsOf (_generateBaseHue appType purpose)
      = map of_Z [specBaseHue appType purpose;
                  (specBaseHue appType purpose + 120) mod 360;
                  (specBaseHue appType purpose + 240) mod 360])
  \/ (ownKeyOnly appType = false
      /\ seedsOf (_generateBaseHue appType purpose) = [nan; nan; nan]).
Proof.
  destruct (ownKeyOnly appType) eqn:Hown; [left | right]; (split; [reflexivity|]).
  - rewrite (generateBaseHue_plain _ _ Hown).
    apply seedsOf_int, specBaseHue_range.
  - rewrite (generateBaseHue_nan _ _ Hown). apply seedsOf_nan.
Qed.

Lemma seeds_of_plain_type (appType purpose : string) (seed : number) :
  ownKeyOnly appType = true ->
  In seed (seedsOf (_generateBaseHue appType purpose)) ->
  exists z, In z hueRange /\ seed = of_Z z.
Proof.
  intros Hown Hin.
  destruct (seeds_cases appType purpose) as [[_ E]|[E _]]; [|congruence].
  rewrite E in Hin. pose proof (specBaseHue_range appType purpose) as Hb.
  cbn [map In] in Hin. destruct Hin as [<-|[<-|[<-|[]]]]; eexists; (split; [|reflexivity]);
    apply in_hueRange; [lia | apply Z.mod_pos_bound; lia | apply Z.mod_pos_bound; lia].
Qed.

Lemma seeds_of_inherited_type (appType purpose : string) (seed : number) :
  ownKeyOnly appType = false ->
  In seed (seedsOf (_generateBaseHue appType purpose)) -> seed = nan.
Proof.
  intros Hown Hin.
  destruct (seeds_cases appType purpose) as [[E _]|[_ E]]; [congruence|].
  rewrite E in Hin. cbn [In] in Hin. intuition congruence.
Qed.

Definition moodGenerators : list (number -> Colors) :=
  [generateWarmPalette; generateCoolPalette; generatePastelPalette; generateDarkModePalette].

Definition typeAdjustments : list (Colors -> Colors) :=
  [_applyProfessionalAdjustments; _applyPlayfulAdjustments; fun c => c].

Lemma moodPalette_cases (colorMood : string) :
  exists gen, In gen moodGenerators /\ forall seed, moodPalette colorMood seed = gen seed.
Proof.
  unfold moodPalette, moodGenerators.
  destruct (colorMood =? "warm")%string.
  { exists generateWarmPalette. split; [apply in_eq | reflexivity]. }
  destruct (colorMood =? "cool")%string.
  { exists generateCoolPalette. split; [apply in_cons, in_eq | reflexivity]. }
  destruct (colorMood =? "pastel")%string.
  { exists generatePastelPalette. split; [do 2 apply in_cons; apply in_eq | reflexivity]. }
  destruct (colorMood =? "dark")%string.
  { exists generateDarkModePalette. split; [do 3 apply in_cons; apply in_eq | reflexivity]. }
  exists generateCoolPalette. split; [apply in_cons, in_eq | reflexivity].
Qed.

Lemma moodPalette_not_warm (colorMood : string) :
  colorMood <> "warm"%string ->
  exists gen, In gen (tl moodGenerators) /\ forall seed, moodPalette colorMood seed = gen seed.
Proof.
  intros Hw. apply String.eqb_neq in Hw.
  unfold moodPalette, moodGenerators. rewrite Hw. cbn [tl].
  destruct (colorMood =? "cool")%string.
  { exists generateCoolPalette. split; [apply in_eq | reflexivity]. }
  destruct (colorMood =? "pastel")%string.
  { exists generatePastelPalette. split; [apply in_cons, in_eq | reflexivity]. }
  destruct (colorMood =? "dark")%string.
  { exists generateDarkModePalette. split; [do 2 apply in_cons; apply in_eq | reflexivity]. }
  exists generateCoolPalette. split; [apply in_eq | reflexivity].
Qed.

Lemma typeAdjust_cases (appType : string) :
  exists adj, In adj typeAdjustments /\ forall c, typeAdjust appType c = adj c.
Proof.
  unfold typeAdjust, typeAdjustments.
  destruct ((appType =? "professional")%string || (appType =? "web-dashboard")%string
            || (appType =? "saas")%string).
  { exists _applyProfessionalAdjustments. split; [apply in_eq | reflexivity]. }
  destruct ((appType =? "playful")%string || (appType =? "mobile-app")%string).
  { exists _applyPlayfulAdjustments. split; [apply in_cons, in_eq | reflexivity]. }
  exists (fun c => c). split; [do 2 apply in_cons; apply in_eq | reflexivity].
Qed.

(** An inherited name is none of the application types that [generate]
    adjusts for. *)
Lemma typeAdjust_inherited (appType : string) (c : Colors) :
  ownKeyOnly appType = false -> typeAdjust appType c = c.
Proof.
  intros Hown. unfold typeAdjust.
  destruct (String.eqb_spec appType "professional") as [->|_]; [discriminate Hown|].
  destruct (String.eqb_spec appType "web-dashboard") as [->|_]; [discriminate Hown|].
  destruct (String.eqb_spec appType "saas") as [->|_]; [discriminate Hown|].
  destruct (String.eqb_spec appType "playful") as [->|_]; [discriminate Hown|].
  destruct (String.eqb_spec appType "mobile-app") as [->|_]; [discriminate Hown|].
  reflexivity.
Qed.

(** The error of [_generateVibeDescription] on an inherited mood. *)
Definition moodTypeError : string := "TypeError: mood.charAt is not a function".

Section Generated.

Variable Math_pow : number -> number -> number.
Variable inheritedText : string -> string.

(** What the lookup of a mood in [moodDescriptions] finds. *)
Lemma lookup_moodDescriptions (colorMood : string) :
  match lookup moodDescriptions colorMood with
  | Own mood => ownKeyOnly colorMood = true /\ mood <> ""%string
  | Absent => ownKeyOnly colorMood = true
  | Inherited _ => ownKeyOnly colorMood = false
  end.
Proof.
  unfold lookup, moodDescriptions, ownProperty, ownKeyOnly.
  repeat match goal with
         | |- context [String.eqb ?k colorMood] =>
             destruct (String.eqb_spec k colorMood) as [<-|]; [split; [reflexivity | discriminate]|]
         end.
  destruct (existsb (String.eqb colorMood) inheritedKeys); reflexivity.
Qed.

Lemma vibe_plain (colorMood appType : string) :
  ownKeyOnly colorMood = true ->
  exists vibe, _generateVibeDescription inheritedText colorMood appType = Return vibe.
Proof.
  intros Hown. unfold _generateVibeDescription. cbv zeta.
  pose proof (lookup_moodDescriptions colorMood) as L.
  destruct (lookup moodDescriptions colorMood); [eexists; reflexivity | congruence
                                                 | eexists; reflexivity].
Qed.

Lemma vibe_inherited (colorMood appType : string) :
  ownKeyOnly colorMood = false ->
  _generateVibeDescription inheritedText colorMood appType = Throw moodTypeError.
Proof.
  intros Hown. unfold _generateVibeDescription. cbv zeta.
  pose proof (lookup_moodDescriptions colorMood) as L.
  destruct (lookup moodDescriptions colorMood); [destruct L; congruence | reflexivity
                                                 | congruence].
Qed.

(** The palette that an iteration of [generate] builds from a name, a vibe
    and the colours. *)
Definition paletteOf (name vibe : string) (c : Colors) : Palette :=
  {| name := name; vibe := vibe; colors := c;
     accessiblePairs :=
       findAccessiblePairs Math_pow
         (map (fun e => (fst e, ColorObject (snd e))) (Object_entries c)) |}.

(** The palette of index [i] of a [generate] call whose vibe is [vibe]. *)
Definition paletteAt (preferences : Preferences) (vibe : string) (i : nat) : Palette :=
  let seeds := seedsOf (_generateBaseHue (appType preferences) (purpose preferences)) in
  paletteOf
    (text_of (_generatePaletteName inheritedText (colorMood preferences)
                (appType preferences) i))
    vibe
    (typeAdjust (appType preferences)
       (moodPalette (colorMood preferences) (nth i seeds nan))).

Lemma generate_Return (preferences : Preferences) (vibe : string) :
  _generateVibeDescription inheritedText (colorMood preferences) (appType preferences)
  = Return vibe ->
  generate Math_pow inheritedText preferences
  = Return [paletteAt preferences vibe 0; paletteAt preferences vibe 1;
            paletteAt preferences vibe 2].
Proof.
  intros Hv. unfold generate, generateOne. cbv zeta. cbn [seq map].
  rewrite Hv. reflexivity.
Qed.

Lemma generate_Throw (preferences : Preferences) (error : string) :
  _generateVibeDescription inheritedText (colorMood preferences) (appType preferences)
  = Throw error ->
  generate Math_pow inheritedText preferences = Throw error.
Proof.
  intros Hv. unfold generate, generateOne. cbv zeta. cbn [seq map].
  rewrite Hv. reflexivity.
Qed.

(** [generate] returns three palettes, unless the mood is an inherited name:
    then it throws. *)
Lemma generate_returns (preferences : Preferences) :
  ownKeyOnly (colorMood preferences) = true ->
  exists vibe,
    generate Math_pow inheritedText preferences
    = Return [paletteAt preferences vibe 0; paletteAt preferences vibe 1;
              paletteAt preferences vibe 2].
Proof.
  intros Hown. destruct (vibe_plain _ (appType preferences) Hown) as [vibe Hv].
  exists vibe. apply generate_Return, Hv.
Qed.

Lemma generate_throws (preferences : Preferences) :
  ownKeyOnly (colorMood preferences) = false ->
  generate Math_pow inheritedText preferences = Throw moodTypeError.
Proof. intros Hown. apply generate_Throw, vibe_inherited, Hown. Qed.

(** Every palette that [generate] returns is a mood palette of one of the
    seeds, passed through the adjustment of the application type. *)
Lemma generate_colors (preferences : Preferences) (ps : list Palette) (p : Palette) :
  generate Math_pow inheritedText preferences = Return ps -> In p ps ->
  exists seed,
    In seed (seedsOf (_generateBaseHue (appType preferences) (purpose preferences)))
    /\ colors p = typeAdjust (appType preferences)
                    (moodPalette (colorMood preferences) seed).
Proof.
  intros Hg Hin.
  destruct (ownKeyOnly (colorMood preferences)) eqn:Hown.
  - destruct (generate_returns preferences Hown) as [vibe E].
    rewrite E in Hg. injection Hg as <-.
    set (seeds := seedsOf (_generateBaseHue (appType preferences) (purpose preferences))).
    assert (Hs : forall i, (i < 3)%nat -> In (nth i seeds nan) seeds).
    { intros i Hi. apply nth_In. exact Hi. }
    cbn [In] in Hin. destruct Hin as [<-|[<-|[<-|[]]]].
    + exists (nth 0 seeds nan). split; [apply Hs; lia | reflexivity].
    + exists (nth 1 seeds nan). split; [apply Hs; lia | reflexivity].
    + exists (nth 2 seeds nan). split; [apply Hs; lia | reflexivity].
  - rewrite (generate_throws preferences Hown) in Hg. discriminate Hg.
Qed.

End Generated.

Section GeneratedSeeds.

Variable Math_pow : number -> number -> number.
Variable inheritedText : string -> string.

Lemma generate_length (preferences : Preferences) (ps : list Palette) :
  generate Math_pow inheritedText preferences = Return ps -> List.length ps = 3%nat.
Proof.
  intros Hg. destruct (ownKeyOnly (colorMood preferences)) eqn:Hown.
  - destruct (generate_returns Math_pow inheritedText preferences Hown) as [vibe E].
    rewrite E in Hg. injection Hg as <-. reflexivity.
  - rewrite (generate_throws Math_pow inheritedText preferences Hown) in Hg.
    discriminate Hg.
Qed.

(** With an application type that is not an inherited name, every returned
    palette comes from an integer seed of [[0, 360)]. *)
Lemma generate_colors_plain (preferences : Preferences) (ps : list Palette) (p : Palette) :
  ownKeyOnly (appType preferences) = true ->
  generate Math_pow inheritedText preferences = Return ps -> In p ps ->
  exists z, In z hueRange
    /\ colors p = typeAdjust (appType preferences)
                    (moodPalette (colorMood preferences) (of_Z z)).
Proof.
  intros Hown Hg Hin.
  destruct (generate_colors Math_pow inheritedText preferences ps p Hg Hin)
    as (seed & Hseed & Hc).
  destruct (seeds_of_plain_type _ _ _ Hown Hseed) as (z & Hz & ->).
  exists z. split; assumption.
Qed.

(** With an inherited name, every returned palette is the mood palette of
    the seed NaN, not adjusted. *)
Lemma generate_colors_inherited (preferences : Preferences) (ps : list Palette)
    (p : Palette) :
  ownKeyOnly (appType preferences) = false ->
  generate Math_pow inheritedText preferences = Return ps -> In p ps ->
  colors p = moodPalette (colorMood preferences) nan.
Proof.
  intros Hown Hg Hin.
  destruct (generate_colors Math_pow inheritedText preferences ps p Hg Hin)
    as (seed & Hseed & Hc).
  rewrite (seeds_of_inherited_type _ _ _ Hown Hseed) in Hc.
  rewrite Hc. apply typeAdjust_inherited, Hown.
Qed.

End GeneratedSeeds.

Lemma inherited_not_own (key : string) : In key inheritedKeys -> ownKeyOnly key = false.
Proof.
  intros Hin. cbn [inheritedKeys In] in Hin.
  repeat (destruct Hin as [<-|Hin]; [reflexivity|]). destruct Hin.
Qed.

(** ** Mood compliance of generated palettes *)

(** A hex string read back as HSL: [rgbToHsl] of [hexToRgb]. *)
Definition hslOfHex (h : string) : HSL :=
  let rgb := hexToRgb h in
  rgbToHsl (rgb_r rgb) (rgb_g rgb) (rgb_b rgb).

Definition chromatic (c : Colors) : list Color := [primary c; secondary c; accent c].

(** Pastel: every chromatic role has [s < 50] and [l > 70]. *)
Definition pastelCompliant (c : Colors) : bool :=
  forallb (fun col => let hsl := hslOfHex (hex col) in
                      (hsl_s hsl <? 50)%float && (70 <? hsl_l hsl)%float)
          (chromatic c).

(** Dark: background and surface have [l < 20], chromatic roles [l > 50]. *)
Definition darkCompliant (c : Colors) : bool :=
  forallb (fun col => (hsl_l (hslOfHex (hex col)) <? 20)%float) [background c; surface c]
  && forallb (fun col => (50 <? hsl_l (hslOfHex (hex col)))%float) (chromatic c).

Lemma pastel_seeds :
  forallb (fun adj =>
             forallb (fun seed => pastelCompliant (adj (generatePastelPalette (of_Z seed))))
                     hueRange) typeAdjustments = true.
Proof. vm_compute. reflexivity. Qed.

Lemma dark_seeds :
  forallb (fun adj =>
             forallb (fun seed => darkCompliant (adj (generateDarkModePalette (of_Z seed))))
                     hueRange) typeAdjustments = true.
Proof. vm_compute. reflexivity. Qed.

(** The pastel and the dark palette of the seed NaN: [hue2rgb] falls through
    every comparison and returns [p], so every colour is a grey. *)
Lemma pastel_nan :
  hex (primary (generatePastelPalette nan)) = "#A3A3A3"%string
  /\ hsl_l (hslOfHex (hex (primary (generatePastelPalette nan)))) = 64%float
  /\ pastelCompliant (generatePastelPalette nan) = false.
Proof. repeat split; vm_compute; reflexivity. Qed.

Lemma dark_nan :
  hex (primary (generateDarkModePalette nan)) = "#525252"%string
  /\ hsl_l (hslOfHex (hex (primary (generateDarkModePalette nan)))) = 32%float
  /\ darkCompliant (generateDarkModePalette nan) = false.
Proof. repeat split; vm_compute; reflexivity. Qed.

(** The primary of a palette reads back with lightness [l] and the palette
    does not comply with its mood. *)
Definition primaryReads (hexString : string) (l : number) (compliant : Colors -> bool)
    (p : Palette) : Prop :=
  hex (primary (colors p)) = hexString
  /\ hsl_l (hslOfHex (hex (primary (colors p)))) = l
  /\ compliant (colors p) = false.

(** C3 fails on the code. With an application type that is one of the
    twelve inherited names ([constructor], [toString], ...), the base hue and
    the three seeds are NaN and no adjustment applies: [generate] returns
    three palettes whose colours are greys. With the pastel mood the primary
    is [#A3A3A3], of lightness 64 instead of more than 70; with the dark mood
    it is [#525252], of lightness 32 instead of more than 50. *)
Theorem generate_mood_violated (Math_pow : number -> number -> number)
    (inheritedText : string -> string) (purpose : string) :
  Forall (fun type =>
            (exists ps,
                generate Math_pow inheritedText (mkPreferences type purpose "pastel")
                = Return ps
                /\ List.length ps = 3%nat
                /\ Forall (primaryReads "#A3A3A3" 64%float pastelCompliant) ps)
            /\ (exists ps,
                   generate Math_pow inheritedText (mkPreferences type purpose "dark")
                   = Return ps
                   /\ List.length ps = 3%nat
                   /\ Forall (primaryReads "#525252" 32%float darkCompliant) ps))
         inheritedKeys.
Proof.
  apply Forall_forall. intros type Hin. apply inherited_not_own in Hin.
  split.
  - destruct (generate_returns Math_pow inheritedText
                (mkPreferences type purpose "pastel") eq_refl) as [vibe E].
    eexists. split; [exact E|]. split; [reflexivity|].
    apply Forall_forall. intros p Hp.
    pose proof (generate_colors_inherited Math_pow inheritedText
                  (mkPreferences type purpose "pastel") _ p Hin E Hp) as Hc.
    change (moodPalette (colorMood (mkPreferences type purpose "pastel")) nan)
      with (generatePastelPalette nan) in Hc.
    unfold primaryReads. rewrite Hc. exact pastel_nan.
  - destruct (generate_returns Math_pow inheritedText
                (mkPreferences type purpose "dark") eq_refl) as [vibe E].
    eexists. split; [exact E|]. split; [reflexivity|].
    apply Forall_forall. intros p Hp.
    pose proof (generate_colors_inherited Math_pow inheritedText
                  (mkPreferences type purpose "dark") _ p Hin E Hp) as Hc.
    change (moodPalette (colorMood (mkPreferences type purpose "dark")) nan)
      with (generateDarkModePalette nan) in Hc.
    unfold primaryReads. rewrite Hc. exact dark_nan.
Qed.

(** X24. With an application type that is not an inherited name the moods
    are complied with. With
    [colorMood = 'pastel'], [generate] returns three palettes in which every
    chromatic role reads back with [s < 50] and [l > 70]; with
    [colorMood = 'dark'], three palettes in which background and surface
    read back with [l < 20] and the chromatic roles with [l > 50]. Both hold
    after the adjustment of the application type. *)
Theorem generate_mood_compliance (Math_pow : number -> number -> number)
    (inheritedText : string -> string) (type purpose : string)
    (Htype : ownKeyOnly type = true) :
  (exists ps,
      generate Math_pow inheritedText (mkPreferences type purpose "pastel") = Return ps
      /\ List.length ps = 3%nat
      /\ Forall (fun p => pastelCompliant (colors p) = true) ps)
  /\ (exists ps,
         generate Math_pow inheritedText (mkPreferences type purpose "dark") = Return ps
         /\ List.length ps = 3%nat
         /\ Forall (fun p => darkCompliant (colors p) = true) ps).
Proof.
  destruct (typeAdjust_cases type) as (adj & Hadj & Eadj).
  split.
  - destruct (generate_returns Math_pow inheritedText
                (mkPreferences type purpose "pastel") eq_refl) as [vibe E].
    eexists. split; [exact E|]. split; [reflexivity|].
    apply Forall_forall. intros p Hp.
    destruct (generate_colors_plain Math_pow inheritedText
                (mkPreferences type purpose "pastel") _ p Htype E Hp) as (z & Hz & ->).
    cbn [appType colorMood]. rewrite Eadj.
    change (moodPalette "pastel" (of_Z z)) with (generatePastelPalette (of_Z z)).
    pose proof pastel_seeds as A.
    rewrite forallb_forall in A. specialize (A adj Hadj).
    rewrite forallb_forall in A. exact (A z Hz).
  - destruct (generate_returns Math_pow inheritedText
                (mkPreferences type purpose "dark") eq_refl) as [vibe E].
    eexists. split; [exact E|]. split; [reflexivity|].
    apply Forall_forall. intros p Hp.
    destruct (generate_colors_plain Math_pow inheritedText
                (mkPreferences type purpose "dark") _ p Htype E Hp) as (z & Hz & ->).
    cbn [appType colorMood]. rewrite Eadj.
    change (moodPalette "dark" (of_Z z)) with (generateDarkModePalette (of_Z z)).
    pose proof dark_seeds as A.
    rewrite forallb_forall in A. specialize (A adj Hadj).
    rewrite forallb_forall in A. exact (A z Hz).
Qed.

Lemma generate_mood_compliance_witness :
  exists ps,
    generate (fun x _ => x) (fun key => key) (mkPreferences "saas" "Z" "pastel") = Return ps
    /\ List.length ps = 3%nat
    /\ Forall (fun p => pastelCompliant (colors p) = true) ps.
Proof.
  apply (generate_mood_compliance (fun x _ => x) (fun key => key) "saas" "Z"). reflexivity.
Defined.

(** ** Hex validity of generated palettes *)

Definition allCanonical (c : Colors) : bool :=
  forallb (fun e => canonicalHex (hex (snd e))) (Object_entries c).

(** A channel that is an integer of [[0, 255]]. *)
Definition isByte (x : number) : bool :=
  let z := trunc x in
  (0 <=? z) && (z <=? 255) && PrimFloat.Leibniz.eqb (of_Z z) x.

Definition byteChannels (rgb : RGB) : bool :=
  isByte (rgb_r rgb) && isByte (rgb_g rgb) && isByte (rgb_b rgb).

(** The saturation and lightness pairs that the four mood generators pass to
    [hslToRgb]. *)
Definition generatorSL : list (Z * Z) :=
  [ (70, 55); (65, 60); (80, 50); (20, 95); (15, 98);
    (65, 50); (60, 55); (75, 45); (15, 96); (10, 99);
    (45, 75); (40, 78); (48, 72); (25, 95); (20, 98);
    (70, 60); (65, 55); (80, 65); (10, 12); (8, 18) ].

Definition byteRange : list Z := map Z.of_nat (seq 0 256).

Lemma in_byteRange (z : Z) : 0 <= z <= 255 -> In z byteRange.
Proof.
  intros Hz. unfold byteRange.
  replace z with (Z.of_nat (Z.to_nat z)) by lia.
  apply in_map, in_seq. lia.
Qed.

(** Exactly two lower-case radix-16 digits. *)
Definition twoHexDigits (s : string) : bool :=
  match s with
  | String c1 (String c2 EmptyString) =>
      (is_digit c1 || is_lower_hex c1) && (is_digit c2 || is_lower_hex c2)
  | _ => false
  end.

Lemma canonical_seeds :
  forallb (fun gen =>
             forallb (fun adj =>
                        forallb (fun seed => allCanonical (adj (gen (of_Z seed)))) hueRange)
                     typeAdjustments)
          moodGenerators = true.
Proof. vm_compute. reflexivity. Qed.

(** The palettes of the seed NaN are made of greys. *)
Lemma canonical_nan : forallb (fun gen => allCanonical (gen nan)) moodGenerators = true.
Proof. vm_compute. reflexivity. Qed.

Lemma generator_channels :
  forallb (fun h => forallb (fun sl => byteChannels (hslToRgb (of_Z h) (of_Z (fst sl))
                                                              (of_Z (snd sl))))
                            generatorSL) hueRange = true.
Proof. vm_compute. reflexivity. Qed.

Lemma generator_channels_nan :
  forallb (fun sl => byteChannels (hslToRgb nan (of_Z (fst sl)) (of_Z (snd sl))))
          generatorSL = true.
Proof. vm_compute. reflexivity. Qed.

Lemma byte_toHex : forallb (fun v => twoHexDigits (toHex (of_Z v))) byteRange = true.
Proof. vm_compute. reflexivity. Qed.

Section Canonical.

Variable Math_pow : number -> number -> number.
Variable inheritedText : string -> string.

(** Every palette that [generate] returns has six canonical hexes, for
    integer seeds and for the seed NaN alike. *)
Lemma generate_canonical (preferences : Preferences) (ps : list Palette) :
  generate Math_pow inheritedText preferences = Return ps ->
  Forall (fun p => allCanonical (colors p) = true) ps.
Proof.
  intros Hg. apply Forall_forall. intros p Hp.
  destruct (moodPalette_cases (colorMood preferences)) as (gen & Hgen & Egen).
  destruct (ownKeyOnly (appType preferences)) eqn:Hown.
  - destruct (generate_colors_plain Math_pow inheritedText preferences ps p Hown Hg Hp)
      as (z & Hz & ->).
    destruct (typeAdjust_cases (appType preferences)) as (adj & Hadj & ->).
    rewrite Egen.
    pose proof canonical_seeds as A.
    rewrite forallb_forall in A. specialize (A gen Hgen).
    rewrite forallb_forall in A. specialize (A adj Hadj).
    rewrite forallb_forall in A. exact (A z Hz).
  - rewrite (generate_colors_inherited Math_pow inheritedText preferences ps p Hown Hg Hp).
    rewrite Egen.
    pose proof canonical_nan as A.
    rewrite forallb_forall in A. exact (A gen Hgen).
Qed.

End Canonical.

(** C5. [generate] returns three palettes, and each of the six colours of
    each of them has a hex that is [#] followed by six upper-case radix-16
    digits: for every application type, purpose and mood for which it
    returns, and it returns unless the mood is an inherited name, for which
    it throws. In particular [hslToRgb] on a hue of [[0, 360)], or on the
    hue NaN of an inherited application type, and a saturation and lightness
    used by the generators gives integer channels in [[0, 255]], and
    [toHex], the formatter inside [rgbToHex], prints such a channel as
    exactly two digits. *)
Theorem generate_hex_canonical (Math_pow : number -> number -> number)
    (inheritedText : string -> string) (preferences : Preferences) :
  match generate Math_pow inheritedText preferences with
  | Return ps =>
      ownKeyOnly (colorMood preferences) = true
      /\ List.length ps = 3%nat
      /\ Forall (fun p => allCanonical (colors p) = true) ps
  | Throw error =>
      ownKeyOnly (colorMood preferences) = false /\ error = moodTypeError
  end
  /\ (forall h s l, 0 <= h < 360 -> In (s, l) generatorSL ->
        byteChannels (hslToRgb (of_Z h) (of_Z s) (of_Z l)) = true)
  /\ (forall s l, In (s, l) generatorSL ->
        byteChannels (hslToRgb nan (of_Z s) (of_Z l)) = true)
  /\ (forall v, 0 <= v <= 255 -> twoHexDigits (toHex (of_Z v)) = true).
Proof.
  split; [|split; [|split]].
  - destruct (ownKeyOnly (colorMood preferences)) eqn:Hown.
    + destruct (generate_returns Math_pow inheritedText preferences Hown) as [vibe E].
      pose proof (generate_canonical Math_pow inheritedText preferences _ E) as Hc.
      rewrite E. split; [reflexivity|]. split; [reflexivity | exact Hc].
    + rewrite (generate_throws Math_pow inheritedText preferences Hown).
      split; reflexivity.
  - intros h s l Hh Hsl.
    pose proof generator_channels as A.
    rewrite forallb_forall in A. specialize (A h (in_hueRange h Hh)).
    rewrite forallb_forall in A. exact (A (s, l) Hsl).
  - intros s l Hsl.
    pose proof generator_channels_nan as A.
    rewrite forallb_forall in A. exact (A (s, l) Hsl).
  - intros v Hv.
    pose proof byte_toHex as A.
    rewrite forallb_forall in A. exact (A v (in_byteRange v Hv)).
Qed.

Lemma generate_hex_canonical_witness :
  (exists ps,
      generate (fun x _ => x) (fun key => key) (mkPreferences "saas" "Z" "warm") = Return ps
      /\ List.length ps = 3%nat
      /\ Forall (fun p => allCanonical (colors p) = true) ps)
  /\ byteChannels (hslToRgb (of_Z 210) (of_Z 70) (of_Z 55)) = true
  /\ byteChannels (hslToRgb nan (of_Z 70) (of_Z 55)) = true
  /\ twoHexDigits (toHex (of_Z 10)) = true.
Proof.
  pose proof (generate_hex_canonical (fun x _ => x) (fun key => key)
                (mkPreferences "saas" "Z" "warm")) as (Hg & Hb & Hn & Hv).
  split; [|split; [|split]].
  - destruct (generate (fun x _ => x) (fun key => key) (mkPreferences "saas" "Z" "warm"))
      as [ps|error].
    + exists ps. split; [reflexivity | exact (proj2 Hg)].
    + destruct Hg as [Hg _]. discriminate Hg.
  - apply Hb; [lia | simpl; tauto].
  - apply Hn. simpl; tauto.
  - apply Hv. lia.
Defined.

(** ** Distinctness of the three primaries *)

Definition primaryHexes (ps : list Palette) : list string :=
  map (fun p => hex (primary (colors p))) ps.

(** The primary hex of the palette of a seed. *)
Definition primaryOf (gen : number -> Colors) (adj : Colors -> Colors) (seed : number)
  : string :=
  hex (primary (adj (gen seed))).

Definition distinct3 (x y z : string) : bool :=
  negb (x =? y)%string && negb (x =? z)%string && negb (y =? z)%string.

Definition seedsDistinct (gen : number -> Colors) (adj : Colors -> Colors) (base : Z)
  : bool :=
  distinct3 (primaryOf gen adj (of_Z base))
            (primaryOf gen adj (of_Z ((base + 120) mod 360)))
            (primaryOf gen adj (of_Z ((base + 240) mod 360))).

Lemma distinct3_NoDup (x y z : string) : distinct3 x y z = true <-> NoDup [x; y; z].
Proof.
  unfold distinct3. rewrite !andb_true_iff, !negb_true_iff, !String.eqb_neq. split.
  - intros [[Hxy Hxz] Hyz].
    repeat constructor; simpl; intuition congruence.
  - intros H. inversion H as [|? ? Hx H1]; subst.
    inversion H1 as [|? ? Hy _]; subst. simpl in Hx, Hy.
    repeat split; intros ->; tauto.
Qed.

Section Distinct.

Variable Math_pow : number -> number -> number.
Variable inheritedText : string -> string.

(** The three primaries of a returned result, seed by seed. *)
Lemma primaryHexes_generate (preferences : Preferences) (gen : number -> Colors)
    (adj : Colors -> Colors) (s0 s1 s2 : number) :
  (forall seed, moodPalette (colorMood preferences) seed = gen seed) ->
  (forall c, typeAdjust (appType preferences) c = adj c) ->
  ownKeyOnly (colorMood preferences) = true ->
  seedsOf (_generateBaseHue (appType preferences) (purpose preferences)) = [s0; s1; s2] ->
  exists ps,
    generate Math_pow inheritedText preferences = Return ps
    /\ List.length ps = 3%nat
    /\ primaryHexes ps = [primaryOf gen adj s0; primaryOf gen adj s1; primaryOf gen adj s2].
Proof.
  intros Hgen Hadj Hown Hseeds.
  destruct (generate_returns Math_pow inheritedText preferences Hown) as [vibe E].
  eexists. split; [exact E|]. split; [reflexivity|].
  unfold primaryHexes, paletteAt, paletteOf, primaryOf. cbv zeta. cbn [map colors].
  rewrite Hseeds. cbn [nth]. rewrite !Hgen, !Hadj. reflexivity.
Qed.

End Distinct.

(** With the cool, pastel and dark generators the three seeds of any base
    hue give three different primaries, under each adjustment. *)
Lemma distinct_seeds :
  forallb (fun gen => forallb (fun adj => forallb (seedsDistinct gen adj) hueRange)
                              typeAdjustments)
          (tl moodGenerators) = true.
Proof. vm_compute. reflexivity. Qed.

(** With the warm generator two of the three seeds always fold onto the same
    primary. *)
Lemma warm_seeds_collide :
  forallb (fun adj => forallb (fun base => negb (seedsDistinct generateWarmPalette adj base))
                              hueRange)
          typeAdjustments = true.
Proof. vm_compute. reflexivity. Qed.

(** For a web dashboard with purpose "Z" and the warm mood, the base hue is
    210 and the seeds 210 and 90 both fold to hue 30, so the first and third
    palettes have the same primary. *)
Lemma primaries_not_distinct :
  exists ps,
    generate (fun x _ => x) (fun key => key) (mkPreferences "web-dashboard" "Z" "warm")
    = Return ps
    /\ primaryHexes ps = ["#CF8C4A"; "#CF4A8C"; "#CF8C4A"]%string
    /\ ~ NoDup (primaryHexes ps).
Proof.
  destruct (generate_returns (fun x _ => x) (fun key => key)
              (mkPreferences "web-dashboard" "Z" "warm") eq_refl) as [vibe E].
  eexists. split; [exact E|].
  assert (P : primaryHexes
                [paletteAt (fun x _ => x) (fun key => key)
                   (mkPreferences "web-dashboard" "Z" "warm") vibe 0;
                 paletteAt (fun x _ => x) (fun key => key)
                   (mkPreferences "web-dashboard" "Z" "warm") vibe 1;
                 paletteAt (fun x _ => x) (fun key => key)
                   (mkPreferences "web-dashboard" "Z" "warm") vibe 2]
              = ["#CF8C4A"; "#CF4A8C"; "#CF8C4A"]%string).
  { unfold primaryHexes, paletteAt, paletteOf. cbv zeta. cbn [map colors].
    vm_compute. reflexivity. }
  split; [exact P|]. rewrite P. intros H.
  inversion H as [|? ? Hn _]; subst. apply Hn. simpl. tauto.
Qed.

(** C1 fails on the code. With the warm mood [generate] returns three
    palettes whose primaries are never pairwise different, whatever the
    application type and the purpose: the fold of the seed into the warm
    range ([seedHue % 60]) sends seeds that are 120 degrees apart to the
    same hue (and with an inherited application type the three seeds are
    NaN). *)
Theorem generate_warm_primaries_collide (Math_pow : number -> number -> number)
    (inheritedText : string -> string) (type why : string) :
  exists ps,
    generate Math_pow inheritedText (mkPreferences type why "warm") = Return ps
    /\ List.length ps = 3%nat
    /\ ~ NoDup (primaryHexes ps).
Proof.
  destruct (typeAdjust_cases type) as (adj & Hadj & Eadj).
  destruct (seeds_cases type why) as [[Hown Hs]|[Hown Hs]].
  - destruct (primaryHexes_generate Math_pow inheritedText
                (mkPreferences type why "warm") generateWarmPalette adj _ _ _
                (fun _ => eq_refl) Eadj eq_refl Hs) as (ps & E & Hlen & P).
    exists ps. split; [exact E|]. split; [exact Hlen|].
    rewrite P, <- distinct3_NoDup.
    pose proof warm_seeds_collide as A.
    rewrite forallb_forall in A. specialize (A adj Hadj).
    rewrite forallb_forall in A.
    specialize (A _ (in_hueRange _ (specBaseHue_range type why))).
    apply negb_true_iff in A. unfold seedsDistinct in A.
    rewrite A. discriminate.
  - destruct (primaryHexes_generate Math_pow inheritedText
                (mkPreferences type why "warm") generateWarmPalette adj _ _ _
                (fun _ => eq_refl) Eadj eq_refl Hs) as (ps & E & Hlen & P).
    exists ps. split; [exact E|]. split; [exact Hlen|].
    rewrite P. intros H.
    inversion H as [|? ? Hn _]; subst. apply Hn. left. reflexivity.
Qed.

(** With an inherited application type the three palettes have the same
    colours under every mood. *)
Lemma generate_inherited_same_colors (Math_pow : number -> number -> number)
    (inheritedText : string -> string) (preferences : Preferences) (ps : list Palette) :
  ownKeyOnly (appType preferences) = false ->
  generate Math_pow inheritedText preferences = Return ps ->
  Forall (fun p => colors p = moodPalette (colorMood preferences) nan) ps.
Proof.
  intros Hown Hg. apply Forall_forall. intros p Hp.
  exact (generate_colors_inherited Math_pow inheritedText preferences ps p Hown Hg Hp).
Qed.

(** X25. With any mood but 'warm', and no inherited name, [generate]
    returns three palettes with pairwise distinct primary hexes. *)
Theorem generate_primaries_distinct (Math_pow : number -> number -> number)
    (inheritedText : string -> string) (preferences : Preferences)
    (Hplain : plainPreferences preferences = true)
    (Hmood : colorMood preferences <> "warm"%string) :
  exists ps,
    generate Math_pow inheritedText preferences = Return ps
    /\ List.length ps = 3%nat
    /\ NoDup (primaryHexes ps).
Proof.
  apply andb_true_iff in Hplain as [Htype Hown].
  destruct (moodPalette_not_warm _ Hmood) as (gen & Hgen & Egen).
  destruct (typeAdjust_cases (appType preferences)) as (adj & Hadj & Eadj).
  destruct (seeds_cases (appType preferences) (purpose preferences))
    as [[_ Hs]|[Hs _]]; [|congruence].
  destruct (primaryHexes_generate Math_pow inheritedText preferences gen adj _ _ _
              Egen Eadj Hown Hs) as (ps & E & Hlen & P).
  exists ps. split; [exact E|]. split; [exact Hlen|].
  rewrite P. apply distinct3_NoDup.
  pose proof distinct_seeds as A.
  rewrite forallb_forall in A. specialize (A gen Hgen).
  rewrite forallb_forall in A. specialize (A adj Hadj).
  rewrite forallb_forall in A.
  exact (A _ (in_hueRange _ (specBaseHue_range _ _))).
Qed.

Lemma generate_primaries_distinct_witness :
  exists ps,
    generate (fun x _ => x) (fun key => key) (mkPreferences "saas" "Z" "pastel") = Return ps
    /\ List.length ps = 3%nat
    /\ NoDup (primaryHexes ps).
Proof.
  apply generate_primaries_distinct; [reflexivity | cbn [colorMood]; discriminate].
Defined.

(** ** Binary64 comparisons and the symmetry of the contrast ratio *)

Lemma SFcompare_antisym (a b : spec_float) :
  SFcompare b a = option_map CompOpp (SFcompare a b).
Proof.
  destruct a as [sa|sa| |sa ma ea], b as [sb|sb| |sb mb eb]; simpl;
    try reflexivity; try (destruct sa; reflexivity); try (destruct sb; reflexivity);
    try (destruct sa, sb; reflexivity).
  destruct sa, sb; try reflexivity;
    rewrite (Z.compare_antisym ea eb); destruct (ea ?= eb); simpl; try reflexivity;
    rewrite (Pos.compare_cont_antisym ma mb Eq); simpl;
    destruct (Pos.compare_cont Eq ma mb); reflexivity.
Qed.

Lemma SFcompare_Eq (a b : spec_float) :
  SFcompare a b = Some Eq ->
  (exists s t, a = S754_zero s /\ b = S754_zero t) \/ a = b.
Proof.
  destruct a as [sa|sa| |sa ma ea], b as [sb|sb| |sb mb eb]; simpl; intros H;
    try discriminate H; try (destruct sa; discriminate H);
    try (destruct sb; discriminate H).
  - left. eauto.
  - right. destruct sa, sb; try discriminate H; reflexivity.
  - right. destruct sa, sb; try discriminate H;
      destruct (ea ?= eb) eqn:E; try discriminate H;
      apply Z.compare_eq in E; subst;
      destruct (Pos.compare_cont Eq ma mb) eqn:E'; try discriminate H;
      apply Pos.compare_eq in E'; subst; reflexivity.
Qed.

Lemma float_is_nan_spec (x : float) : PrimFloat.is_nan x = true <-> Prim2SF x = S754_nan.
Proof.
  unfold PrimFloat.is_nan. rewrite FloatAxioms.eqb_spec. unfold SFeqb.
  destruct (Prim2SF x) as [s|s| |s m e]; simpl.
  - split; discriminate.
  - destruct s; split; discriminate.
  - tauto.
  - destruct s; rewrite Z.compare_refl, Pos.compare_cont_refl; simpl; split; discriminate.
Qed.

Lemma float_is_zero_spec (x : float) :
  PrimFloat.is_zero x = true <-> exists s, Prim2SF x = S754_zero s.
Proof.
  unfold PrimFloat.is_zero. rewrite FloatAxioms.eqb_spec. unfold SFeqb.
  change (Prim2SF zero) with (S754_zero false).
  destruct (Prim2SF x) as [s|s| |s m e]; simpl.
  - split; eauto.
  - destruct s; split; try discriminate; intros [? ?]; discriminate.
  - split; try discriminate; intros [? ?]; discriminate.
  - destruct s; split; try discriminate; intros [? ?]; discriminate.
Qed.

(** Two numbers that are not NaN and neither below the other are the same
    number, or two zeros. *)
Lemma not_lt_not_gt (x y : float) :
  PrimFloat.is_nan x = false -> PrimFloat.is_nan y = false ->
  (x <? y)%float = false -> (y <? x)%float = false ->
  (PrimFloat.is_zero x = true /\ PrimFloat.is_zero y = true) \/ x = y.
Proof.
  intros Nx Ny Hxy Hyx.
  rewrite FloatAxioms.ltb_spec in Hxy, Hyx. unfold SFltb in *.
  rewrite (SFcompare_antisym (Prim2SF x) (Prim2SF y)) in Hyx.
  assert (Hx : Prim2SF x <> S754_nan) by (rewrite <- float_is_nan_spec; congruence).
  assert (Hy : Prim2SF y <> S754_nan) by (rewrite <- float_is_nan_spec; congruence).
  destruct (SFcompare (Prim2SF x) (Prim2SF y)) as [[| |]|] eqn:E; simpl in *;
    try discriminate.
  - apply SFcompare_Eq in E as [(s & t & Es & Et)|E].
    + left. rewrite !float_is_zero_spec. eauto.
    + right. now apply Prim2SF_inj.
  - exfalso. destruct (Prim2SF x), (Prim2SF y); simpl in E; congruence.
Qed.

Lemma lt_asym (x y : float) : (x <? y)%float = true -> (y <? x)%float = false.
Proof.
  rewrite !FloatAxioms.ltb_spec. unfold SFltb.
  rewrite (SFcompare_antisym (Prim2SF x) (Prim2SF y)).
  destruct (SFcompare (Prim2SF x) (Prim2SF y)) as [[| |]|]; simpl; congruence.
Qed.

Lemma add_zeros_comm (x y : float) :
  PrimFloat.is_zero x = true -> PrimFloat.is_zero y = true -> (x + y = y + x)%float.
Proof.
  rewrite !float_is_zero_spec. intros [s Hs] [t Ht].
  apply Prim2SF_inj. rewrite !FloatAxioms.add_spec, Hs, Ht.
  destruct s, t; reflexivity.
Qed.

Lemma sub_zeros_comm (x y : float) :
  PrimFloat.is_zero x = true -> PrimFloat.is_zero y = true ->
  (- (- x - y) = - (- y - x))%float.
Proof.
  rewrite !float_is_zero_spec. intros [s Hs] [t Ht].
  apply Prim2SF_inj. rewrite !FloatAxioms.opp_spec, !FloatAxioms.sub_spec, !FloatAxioms.opp_spec, Hs, Ht.
  destruct s, t; reflexivity.
Qed.

Lemma Math_max_comm (x y : number) : Math_max x y = Math_max y x.
Proof.
  unfold Math_max. rewrite (orb_comm (PrimFloat.is_nan y)).
  destruct (PrimFloat.is_nan x) eqn:Nx, (PrimFloat.is_nan y) eqn:Ny; simpl; try reflexivity.
  destruct (x <? y)%float eqn:Hxy.
  - rewrite (lt_asym _ _ Hxy). reflexivity.
  - destruct (y <? x)%float eqn:Hyx; [reflexivity|].
    destruct (not_lt_not_gt x y Nx Ny Hxy Hyx) as [[Zx Zy]|E].
    + rewrite Zx, Zy. now apply add_zeros_comm.
    + subst. reflexivity.
Qed.

Lemma Math_min_comm (x y : number) : Math_min x y = Math_min y x.
Proof.
  unfold Math_min. rewrite (orb_comm (PrimFloat.is_nan y)).
  destruct (PrimFloat.is_nan x) eqn:Nx, (PrimFloat.is_nan y) eqn:Ny; simpl; try reflexivity.
  destruct (x <? y)%float eqn:Hxy.
  - rewrite (lt_asym _ _ Hxy). reflexivity.
  - destruct (y <? x)%float eqn:Hyx; [reflexivity|].
    destruct (not_lt_not_gt x y Nx Ny Hxy Hyx) as [[Zx Zy]|E].
    + rewrite Zx, Zy. now apply sub_zeros_comm.
    + subst. reflexivity.
Qed.

Lemma contrast_swap (Math_pow : number -> number -> number) (a b : string) :
  calculateContrastRatio Math_pow a b = calculateContrastRatio Math_pow b a.
Proof.
  unfold calculateContrastRatio. cbv zeta.
  rewrite (Math_max_comm (getRelativeLuminance Math_pow a)),
          (Math_min_comm (getRelativeLuminance Math_pow a)).
  reflexivity.
Qed.

(** C8. For every pair of hex strings, well-formed or not, swapping the two
    arguments of [calculateContrastRatio] never changes the result. *)
Theorem calculateContrastRatio_sym (Math_pow : number -> number -> number)
    (color1Hex color2Hex : string) :
  calculateContrastRatio Math_pow color1Hex color2Hex
  = calculateContrastRatio Math_pow color2Hex color1Hex.
Proof. apply contrast_swap. Qed.

(** ** Rounding to binary64 never goes below a representable lower bound *)

Lemma digits2_pos_bounds (p : positive) :
  2 ^ (Zpos (digits2_pos p) - 1) <= Zpos p < 2 ^ Zpos (digits2_pos p).
Proof.
  induction p as [p IH|p IH|]; cbn [digits2_pos].
  - rewrite Pos2Z.inj_succ.
    replace (Z.succ (Zpos (digits2_pos p)) - 1) with (Z.succ (Zpos (digits2_pos p) - 1)) by lia.
    rewrite !Z.pow_succ_r by lia. lia.
  - rewrite Pos2Z.inj_succ.
    replace (Z.succ (Zpos (digits2_pos p)) - 1) with (Z.succ (Zpos (digits2_pos p) - 1)) by lia.
    rewrite !Z.pow_succ_r by lia. lia.
  - simpl. lia.
Qed.

Lemma digits2_pos_unique (p : positive) (k : Z) :
  2 ^ (k - 1) <= Zpos p < 2 ^ k -> Zpos (digits2_pos p) = k.
Proof.
  intros [Hlo Hhi]. pose proof (digits2_pos_bounds p) as [Dlo Dhi].
  set (d := Zpos (digits2_pos p)) in *.
  assert (0 < d) by (subst d; lia).
  destruct (Z.lt_trichotomy d k) as [Hlt|[Heq|Hgt]]; [|exact Heq|].
  - exfalso.
    assert (2 ^ d <= 2 ^ (k - 1)) by (apply Z.pow_le_mono_r; lia). lia.
  - exfalso.
    assert (k <= 0 \/ 0 < k) as [Hk|Hk] by lia.
    + assert (2 ^ k <= 1).
      { destruct (Z.eq_dec k 0) as [->|]; [simpl; lia|].
        rewrite Z.pow_neg_r by lia. lia. }
      lia.
    + assert (2 ^ k <= 2 ^ (d - 1)) by (apply Z.pow_le_mono_r; lia). lia.
Qed.

Lemma shr_1_m (r : shr_record) :
  0 <= shr_m r -> shr_m (shr_1 r) = shr_m r / 2.
Proof.
  destruct r as [m rb sb]. cbn [shr_m shr_1]. intros Hm.
  destruct m as [|[p|p|]|p]; cbn [shr_m]; try lia.
  - reflexivity.
  - rewrite Pos2Z.inj_xI. apply Z.div_unique with (r := 1); lia.
  - rewrite Pos2Z.inj_xO. apply Z.div_unique with (r := 0); lia.
  - reflexivity.
Qed.

Lemma iter_pos_shr_m (n : positive) (r : shr_record) :
  0 <= shr_m r -> shr_m (iter_pos shr_1 n r) = shr_m r / 2 ^ Zpos n.
Proof.
  revert r. induction n as [n IH|n IH|]; intros r Hr; cbn [iter_pos].
  - assert (P : 0 < 2 ^ Zpos n) by (apply Z.pow_pos_nonneg; lia).
    assert (H1 : 0 <= shr_m (shr_1 r)) by (rewrite shr_1_m by lia; apply Z.div_pos; lia).
    assert (H2 : 0 <= shr_m (iter_pos shr_1 n (shr_1 r)))
      by (rewrite IH by lia; apply Z.div_pos; lia).
    rewrite (IH _ H2), (IH _ H1), shr_1_m by lia.
    rewrite !Z.div_div by lia.
    f_equal. replace (Zpos n~1) with (1 + Zpos n + Zpos n) by lia.
    rewrite !Z.pow_add_r by lia. lia.
  - assert (P : 0 < 2 ^ Zpos n) by (apply Z.pow_pos_nonneg; lia).
    assert (H2 : 0 <= shr_m (iter_pos shr_1 n r))
      by (rewrite IH by lia; apply Z.div_pos; lia).
    rewrite (IH _ H2), (IH _ Hr).
    rewrite !Z.div_div by lia.
    f_equal. replace (Zpos n~0) with (Zpos n + Zpos n) by lia.
    rewrite !Z.pow_add_r by lia. lia.
  - rewrite shr_1_m by lia. reflexivity.
Qed.

Lemma shr_record_of_loc_m (m : Z) (l : location) : shr_m (shr_record_of_loc m l) = m.
Proof. destruct l as [|[| |]]; reflexivity. Qed.

Lemma shr_m_shift (r : shr_record) (e n : Z) :
  0 <= shr_m r -> 0 <= n ->
  shr_m (fst (shr r e n)) = shr_m r / 2 ^ n /\ snd (shr r e n) = e + n.
Proof.
  intros Hr Hn. destruct n as [|p|p]; cbn [shr fst snd]; try lia.
  - rewrite Z.div_1_r. lia.
  - rewrite iter_pos_shr_m by lia. lia.
Qed.

Lemma round_nearest_even_bounds (m : Z) (l : location) :
  m <= round_nearest_even m l <= m + 1.
Proof.
  destruct l as [|[| |]]; cbn [round_nearest_even]; try lia.
  destruct (Z.even m); lia.
Qed.

Abbreviation emin64 := (-1074).

Lemma fexp_normal (e : Z) : emin64 <= e - 53 -> fexp prec emax e = e - 53.
Proof. unfold fexp, SpecFloat.emin, prec, emax. lia. Qed.

(** [shr_fexp] on a positive integer of at least 53 digits, whose rounded
    exponent is in the normal range: the mantissa keeps its 53 leading
    digits. *)
Lemma shr_fexp_normal (m e : Z) (l : location) (d : Z) :
  53 <= d -> 2 ^ (d - 1) <= m < 2 ^ d -> Zdigits2 m = d -> emin64 <= e + d - 53 ->
  let '(mrs, e') := shr_fexp prec emax m e l in
  shr_m mrs = m / 2 ^ (d - 53) /\ e' = e + d - 53
  /\ 2 ^ 52 <= shr_m mrs < 2 ^ 53.
Proof.
  intros Hd Hm Hdig He.
  assert (P0 : 0 < 2 ^ (d - 1)) by (apply Z.pow_pos_nonneg; lia).
  unfold shr_fexp. rewrite Hdig, fexp_normal by lia.
  replace (d + e - 53 - e) with (d - 53) by lia.
  pose proof (shr_m_shift (shr_record_of_loc m l) e (d - 53)) as S.
  rewrite shr_record_of_loc_m in S.
  destruct S as [Sm Se]; [lia | lia |].
  destruct (shr (shr_record_of_loc m l) e (d - 53)) as [mrs e'].
  cbn [fst snd] in Sm, Se. subst e'. rewrite Sm.
  assert (P : 0 < 2 ^ (d - 53)) by (apply Z.pow_pos_nonneg; lia).
  split; [reflexivity|]. split; [lia|]. split.
  - apply Z.div_le_lower_bound; [lia|].
    rewrite <- Z.pow_add_r by lia. replace (d - 53 + 52) with (d - 1) by lia. lia.
  - apply Z.div_lt_upper_bound; [lia|].
    rewrite <- Z.pow_add_r by lia. replace (d - 53 + 53) with d by lia. lia.
Qed.

Lemma Zdigits2_unique (m k : Z) : 2 ^ (k - 1) <= m < 2 ^ k -> 0 < m -> Zdigits2 m = k.
Proof.
  intros H Hm. destruct m as [|p|p]; try lia.
  cbn [Zdigits2]. now apply digits2_pos_unique.
Qed.

(** The lower bound: a positive integer [mx] of at least 53 digits at
    exponent [ex], rounded to binary64, is not below the float [mv * 2^ev]
    as soon as its rounded exponent [ex + d - 53] is at least [ev] and, when
    they are equal, its 53 leading digits are at least [mv]. *)
Lemma binary_round_aux_lower (mx mv : positive) (ex ev : Z) (lx : location) :
  let d := Zpos (digits2_pos mx) in
  emin64 <= ev -> 53 <= d -> ev <= ex + d - 53 ->
  (ex + d - 53 = ev -> Zpos mv <= Zpos mx / 2 ^ (d - 53)) ->
  SFleb (S754_finite false mv ev)
        (binary_round_aux prec emax false (Zpos mx) ex lx) = true.
Proof.
  intros d Hev Hd Hle Hm.
  pose proof (digits2_pos_bounds mx) as Bx. fold d in Bx.
  unfold binary_round_aux.
  pose proof (shr_fexp_normal (Zpos mx) ex lx d Hd Bx eq_refl ltac:(lia)) as S1.
  destruct (shr_fexp prec emax (Zpos mx) ex lx) as [mrs1 e1].
  destruct S1 as (Sm & -> & Sb).
  pose proof (round_nearest_even_bounds (shr_m mrs1) (loc_of_shr_record mrs1)) as R.
  set (m1 := round_nearest_even (shr_m mrs1) (loc_of_shr_record mrs1)) in *.
  assert (C : (m1 < 2 ^ 53 /\ Zdigits2 m1 = 53) \/ (m1 = 2 ^ 53 /\ Zdigits2 m1 = 54)).
  { destruct (Z.eq_dec m1 (2 ^ 53)) as [E|NE].
    - right. split; [exact E|]. rewrite E. reflexivity.
    - left. split; [lia|]. apply Zdigits2_unique; lia. }
  destruct C as [[C1 C2]|[C1 C2]].
  - pose proof (shr_fexp_normal m1 (ex + d - 53) loc_Exact 53 ltac:(lia) ltac:(lia) C2
                  ltac:(lia)) as S2.
    destruct (shr_fexp prec emax m1 (ex + d - 53) loc_Exact) as [mrs2 e2].
    destruct S2 as (Sm2 & -> & Sb2).
    replace (53 - 53) with 0 in Sm2 by lia. rewrite Z.div_1_r in Sm2.
    destruct (shr_m mrs2) as [|p2|p2] eqn:E2; try lia.
    destruct (ex + d - 53 + 53 - 53 <=? emax - prec); unfold SFleb; cbn [SFcompare];
      [|reflexivity].
    destruct (Z.compare_spec ev (ex + d - 53 + 53 - 53)) as [E|L|G]; try reflexivity;
      [|lia].
    assert (Hmv : Zpos mv <= Zpos p2) by (specialize (Hm ltac:(lia)); lia).
    fold (Pos.compare mv p2). destruct (Pos.compare_spec mv p2); try reflexivity. lia.
  - pose proof (shr_fexp_normal m1 (ex + d - 53) loc_Exact 54 ltac:(lia)
                  ltac:(clearbody m1; subst m1; simpl; lia) C2 ltac:(lia)) as S2.
    destruct (shr_fexp prec emax m1 (ex + d - 53) loc_Exact) as [mrs2 e2].
    destruct S2 as (Sm2 & -> & Sb2).
    destruct (shr_m mrs2) as [|p2|p2] eqn:E2; try lia.
    destruct (ex + d - 53 + 54 - 53 <=? emax - prec); unfold SFleb; cbn [SFcompare];
      [|reflexivity].
    destruct (Z.compare_spec ev (ex + d - 53 + 54 - 53)) as [E|L|G]; try reflexivity; lia.
Qed.

(** A valid float that is at least a finite positive float in the normal
    range is +infinity, or a positive normal float ordered by exponent, then
    mantissa. *)
Lemma SFleb_finite_inv (mv : positive) (ev : Z) (x : spec_float) :
  emin64 < ev -> valid_binary x = true ->
  SFleb (S754_finite false mv ev) x = true ->
  x = S754_infinity false
  \/ exists mx ex, x = S754_finite false mx ex /\ Zpos (digits2_pos mx) = 53
                   /\ (ev < ex \/ (ex = ev /\ Zpos mv <= Zpos mx)).
Proof.
  intros Hev Hval H. unfold SFleb in H.
  destruct x as [s|s| |s m e]; cbn [SFcompare] in H; try discriminate H.
  - destruct s; [discriminate H | now left].
  - right. destruct s; [discriminate H|].
    assert (Hord : ev < e \/ (e = ev /\ Zpos mv <= Zpos m)).
    { destruct (Z.compare_spec ev e) as [E|L|G]; [|lia|discriminate H].
      right. split; [lia|]. fold (Pos.compare mv m) in H.
      destruct (Pos.compare_spec mv m); try discriminate H; lia. }
    exists m, e. split; [reflexivity|]. split; [|exact Hord].
    cbn [valid_binary] in Hval. unfold bounded, canonical_mantissa in Hval.
    apply andb_true_iff in Hval as [Hc _]. apply Z.eqb_eq in Hc.
    unfold fexp, SpecFloat.emin, prec, emax in Hc. lia.
Qed.

Lemma pos_53_digits (m : positive) :
  Zpos (digits2_pos m) = 53 -> 2 ^ 52 <= Zpos m < 2 ^ 53.
Proof. intros H. pose proof (digits2_pos_bounds m) as B. rewrite H in B. exact B. Qed.

Lemma digits_between (p : positive) (lo hi : Z) :
  0 <= lo -> 2 ^ lo <= Zpos p < 2 ^ hi -> lo < Zpos (digits2_pos p) <= hi.
Proof.
  intros Hlo [H1 H2]. pose proof (digits2_pos_bounds p) as [B1 B2].
  set (d := Zpos (digits2_pos p)) in *. assert (0 < d) by (subst d; lia).
  split.
  - apply (Z.pow_lt_mono_r_iff 2); lia.
  - assert (d - 1 < hi); [|lia].
    assert (0 <= hi \/ hi < 0) as [Hh|Hh] by lia.
    + apply (Z.pow_lt_mono_r_iff 2); lia.
    + rewrite (Z.pow_neg_r 2 hi) in H2 by lia. lia.
Qed.

Lemma Prim2SF_4_5 : Prim2SF 4.5 = S754_finite false 5066549580791808 (-50).
Proof. reflexivity. Qed.
Lemma Prim2SF_100 : Prim2SF 100 = S754_finite false 7036874417766400 (-46).
Proof. reflexivity. Qed.
Lemma Prim2SF_450 : Prim2SF 450 = S754_finite false 7916483719987200 (-44).
Proof. reflexivity. Qed.

(** Multiplying a number that is at least 4.5 by 100 gives at least 450. *)
Lemma mul_100_lower (x : float) :
  (4.5 <=? x)%float = true -> (450 <=? x * 100)%float = true.
Proof.
  rewrite !FloatAxioms.leb_spec, FloatAxioms.mul_spec, Prim2SF_4_5, Prim2SF_100, Prim2SF_450.
  intros H.
  apply SFleb_finite_inv in H; [|lia|apply Prim2SF_valid].
  destruct H as [->|(mx & ex & -> & Hd & Hord)]; [reflexivity|].
  unfold SF64mul, SFmul. cbn [xorb].
  pose proof (pos_53_digits mx Hd) as Bx.
  assert (Bp : 2 ^ 104 <= Zpos (mx * 7036874417766400) < 2 ^ 106)
    by (rewrite Pos2Z.inj_mul; lia).
  pose proof (digits_between _ 104 106 ltac:(lia) Bp) as Bd.
  apply binary_round_aux_lower; cbv zeta; try lia.
  intros E.
  assert (Ed : Zpos (digits2_pos (mx * 7036874417766400)) = 105) by lia.
  rewrite Ed. apply Z.div_le_lower_bound; [lia|].
  rewrite Pos2Z.inj_mul. lia.
Qed.

(** Dividing a number that is at least 450 by 100 gives at least 4.5. *)
Lemma div_100_lower (z : float) :
  (450 <=? z)%float = true -> (4.5 <=? z / 100)%float = true.
Proof.
  rewrite !FloatAxioms.leb_spec, FloatAxioms.div_spec, Prim2SF_4_5, Prim2SF_100, Prim2SF_450.
  intros H.
  apply SFleb_finite_inv in H; [|lia|apply Prim2SF_valid].
  destruct H as [->|(mz & ez & -> & Hd & Hord)]; [reflexivity|].
  unfold SF64div, SFdiv, SFdiv_core_binary. cbn [xorb Zdigits2].
  rewrite Hd. change (Zpos (digits2_pos 7036874417766400)) with 53.
  replace (53 + ez - (53 + -46)) with (ez + 46) by lia.
  rewrite fexp_normal by lia.
  replace (Z.min (ez + 46 - 53) (ez - -46)) with (ez - 7) by lia.
  replace (ez - -46 - (ez - 7)) with 53 by lia.
  rewrite Z.shiftl_mul_pow2 by lia.
  pose proof (pos_53_digits mz Hd) as Bz.
  destruct (Z.div_eucl (Zpos mz * 2 ^ 53) (Zpos 7036874417766400)) as [q r] eqn:E.
  assert (Hq : q = Zpos mz * 2 ^ 53 / Zpos 7036874417766400)
    by (unfold Z.div; rewrite E; reflexivity).
  assert (Hlo : 2 ^ 52 <= q)
    by (rewrite Hq; apply Z.div_le_lower_bound; lia).
  assert (Hhi : q < 2 ^ 54)
    by (rewrite Hq; apply Z.div_lt_upper_bound; lia).
  destruct q as [|pq|pq]; try lia.
  pose proof (digits_between pq 52 54 ltac:(lia) ltac:(lia)) as Bd.
  assert (Hq' : ez = -44 -> 2 ^ 53 <= Zpos pq /\ 10133099161583616 <= Zpos pq).
  { intros ->. rewrite Hq. split; apply Z.div_le_lower_bound; lia. }
  assert (Hd54 : ez = -44 -> Zpos (digits2_pos pq) = 54).
  { intros Hez. destruct (Hq' Hez) as [Hq1 _].
    pose proof (digits_between pq 53 54 ltac:(lia) ltac:(lia)). lia. }
  apply binary_round_aux_lower; cbv zeta; try lia.
  intros Eexp.
  assert (ez = -44 \/ ez = -43) as [Hez|Hez] by lia.
  - rewrite (Hd54 Hez). destruct (Hq' Hez) as [_ Hq2].
    apply Z.div_le_lower_bound; lia.
  - assert (Ed : Zpos (digits2_pos pq) = 53) by lia.
    rewrite Ed. replace (53 - 53) with 0 by lia. rewrite Z.div_1_r.
      rewrite Hq. apply Z.div_le_lower_bound; lia.
Qed.

Lemma Pos_iter_xO (p k : positive) : Zpos (Pos.iter xO p k) = Zpos p * 2 ^ Zpos k.
Proof.
  induction k as [|k IH] using Pos.peano_ind.
  - cbn [Pos.iter]. lia.
  - rewrite Pos.iter_succ, Pos2Z.inj_xO, IH, Pos2Z.inj_succ, Z.pow_succ_r by lia. lia.
Qed.

(** An integer of [[450, 2^53)] converted to binary64 is at least 450. *)
Lemma binary_normalize_lower (n : Z) :
  450 <= n < 2 ^ 53 ->
  SFleb (S754_finite false 7916483719987200 (-44))
        (binary_normalize prec emax n 0 false) = true.
Proof.
  intros Hn. destruct n as [|p|p]; try lia.
  cbn [binary_normalize]. unfold binary_round.
  pose proof (digits_between p 8 53 ltac:(lia) ltac:(lia)) as Bd.
  pose proof (digits2_pos_bounds p) as Bp.
  set (dn := Zpos (digits2_pos p)) in *.
  rewrite Z.add_0_r, fexp_normal by lia.
  unfold shl_align.
  destruct (dn - 53 - 0) as [|k|k] eqn:Ek; try lia.
  - apply binary_round_aux_lower; cbv zeta; fold dn; lia.
  - pose proof (Pos_iter_xO p k) as Hz.
    assert (Hk : Zpos k = 53 - dn) by lia.
    assert (P : 0 < 2 ^ Zpos k) by (apply Z.pow_pos_nonneg; lia).
    assert (Bz : 2 ^ 52 <= Zpos (Pos.iter xO p k) < 2 ^ 53).
    { rewrite Hz. split.
      - replace 52 with ((dn - 1) + Zpos k) by lia. rewrite Z.pow_add_r by lia.
        apply Z.mul_le_mono_nonneg_r; lia.
      - replace 53 with (dn + Zpos k) by lia. rewrite Z.pow_add_r by lia.
        apply Z.mul_lt_mono_pos_r; lia. }
    pose proof (digits2_pos_unique _ 53 Bz) as Dz.
    apply binary_round_aux_lower; cbv zeta; rewrite ?Dz; try lia.
    intros E. replace (53 - 53) with 0 by lia. rewrite Z.div_1_r, Hz.
    assert (Zpos k = 44) as -> by lia. lia.
Qed.

Lemma float_is_infinity_spec (x : float) :
  PrimFloat.is_infinity x = true <-> exists s, Prim2SF x = S754_infinity s.
Proof.
  unfold PrimFloat.is_infinity. rewrite FloatAxioms.eqb_spec, FloatAxioms.abs_spec.
  change (Prim2SF infinity) with (S754_infinity false). unfold SFeqb.
  destruct (Prim2SF x) as [s|s| |s m e]; cbn [SFabs SFcompare].
  - split; [discriminate | intros [? ?]; discriminate].
  - split; eauto.
  - split; [discriminate | intros [? ?]; discriminate].
  - split; [discriminate | intros [? ?]; discriminate].
Qed.

Lemma uint63_leb_false (x y : int) :
  (x <=? y)%uint63 = false -> to_Z y < to_Z x.
Proof.
  intros H. destruct (Z.lt_ge_cases (to_Z y) (to_Z x)) as [L|G]; [exact L|].
  apply Uint63.leb_spec in G. congruence.
Qed.

Lemma mod_wB_small (z : Z) : 0 <= z < 2 ^ 62 -> z mod wB = z.
Proof.
  intros H. apply Z.mod_small. change wB with (2 ^ 63). lia.
Qed.

(** Rounding a number that is at least 450 to the nearest integer gives at
    least 450. *)
Lemma Math_round_lower (y : number) :
  (450 <=? y)%float = true -> (450 <=? Math_round y)%float = true.
Proof.
  intros H. pose proof H as H0.
  rewrite FloatAxioms.leb_spec, Prim2SF_450 in H.
  apply SFleb_finite_inv in H; [|lia|apply Prim2SF_valid].
  unfold Math_round.
  destruct H as [Hy|(my & ey & Hy & Hd & Hord)].
  - assert (Hinf : PrimFloat.is_infinity y = true) by (apply float_is_infinity_spec; eauto).
    rewrite Hinf, orb_true_r. exact H0.
  - assert (Nn : PrimFloat.is_nan y = false).
    { destruct (PrimFloat.is_nan y) eqn:E; [|reflexivity].
      apply float_is_nan_spec in E. congruence. }
    assert (Nz : PrimFloat.is_zero y = false).
    { destruct (PrimFloat.is_zero y) eqn:E; [|reflexivity].
      apply float_is_zero_spec in E as [s E]. congruence. }
    assert (Ni : PrimFloat.is_infinity y = false).
    { destruct (PrimFloat.is_infinity y) eqn:E; [|reflexivity].
      apply float_is_infinity_spec in E as [s E]. congruence. }
    rewrite Nn, Nz, Ni. cbn [orb].
    pose proof (frshiftexp_spec y) as FS.
    destruct (frshiftexp y) as [m e].
    rewrite Hy in FS. unfold SFfrexp in FS. rewrite Hd in FS.
    change (prec <=? 53) with true in FS. cbv iota in FS.
    injection FS as Hm He. unfold shift, prec in He, Hm.
    pose proof (normfr_mantissa_spec m) as HM. rewrite Hm in HM.
    change (SFnormfr_mantissa prec (S754_finite false my (-53))) with (Npos my) in HM.
    cbn [Z.of_N] in HM.
    pose proof (to_Z_bounded e) as Be.
    destruct (2154 <=? e)%uint63 eqn:E1; [exact H0|].
    apply uint63_leb_false in E1. change (to_Z 2154) with 2154 in E1.
    destruct (e <=? 2100)%uint63 eqn:E2.
    { apply Uint63.leb_spec in E2. change (to_Z 2100) with 2100 in E2. lia. }
    apply uint63_leb_false in E2. change (to_Z 2100) with 2100 in E2.
    assert (Hlt : (y <? 0)%float = false).
    { rewrite FloatAxioms.ltb_spec, Hy. reflexivity. }
    rewrite Hlt.
    rewrite FloatAxioms.leb_spec, Prim2SF_450, of_uint63_spec.
    apply binary_normalize_lower.
    assert (Hk : to_Z (2154 - e) = - ey).
    { rewrite Uint63.sub_spec. change (to_Z 2154) with 2154.
      rewrite mod_wB_small; lia. }
    assert (Hk1 : to_Z (2154 - e - 1) = - ey - 1).
    { rewrite Uint63.sub_spec, Hk. change (to_Z 1) with 1.
      rewrite mod_wB_small; lia. }
    assert (P1 : 1 <= 2 ^ (- ey - 1) <= 2 ^ 43).
    { split; [|apply Z.pow_le_mono_r; lia].
      assert (0 < 2 ^ (- ey - 1)) by (apply Z.pow_pos_nonneg; lia). lia. }
    assert (P2 : 2 ^ (- ey) = 2 * 2 ^ (- ey - 1)).
    { replace (- ey) with (Z.succ (- ey - 1)) at 1 by lia.
      rewrite Z.pow_succ_r by lia. reflexivity. }
    assert (Hh : to_Z (1 << (2154 - e - 1)) = 2 ^ (- ey - 1)).
    { rewrite Uint63.lsl_spec, Hk1. change (to_Z 1) with 1.
      rewrite Z.mul_1_l, mod_wB_small; [reflexivity|lia]. }
    pose proof (pos_53_digits my Hd) as Bm.
    assert (Hs : to_Z (normfr_mantissa m + (1 << (2154 - e - 1)))
                 = Zpos my + 2 ^ (- ey - 1)).
    { rewrite Uint63.add_spec, Hh, HM.
      rewrite mod_wB_small; [reflexivity|lia]. }
    rewrite Uint63.lsr_spec, Hs, Hk, P2.
    split.
    + apply Z.div_le_lower_bound; [lia|]. destruct Hord as [Ho|[Ho Hm']].
      * assert (2 ^ (- ey - 1) <= 2 ^ 42) by (apply Z.pow_le_mono_r; lia). lia.
      * subst ey. simpl in *. lia.
    + apply Z.div_lt_upper_bound; lia.
Qed.

(** The ratio reported for an accessible pair: rounding an AA ratio to two
    decimals keeps it at 4.5 or more. *)
Lemma round2_lower (x : number) :
  (4.5 <=? x)%float = true -> (4.5 <=? Math_round (x * 100) / 100)%float = true.
Proof.
  intros H. apply div_100_lower, Math_round_lower, mul_100_lower, H.
Qed.

(** ** Accessible pairs *)

Section AccessiblePairs.

Variable Math_pow : number -> number -> number.

Lemma in_pairAt (colorEntries : list (string * ColorValue)) (i j : nat)
    (p : AccessiblePair) :
  In p (pairAt Math_pow colorEntries i j) ->
  let c := calculateContrastRatio Math_pow (AccessibilityChecker.text p)
             (AccessibilityChecker.background p) in
  meetsWCAG_AA c = true /\ ratio p = (Math_round (c * 100) / 100)%float.
Proof.
  unfold pairAt. destruct (Nat.eqb i j); [intros []|].
  destruct (nth_error colorEntries i) as [[ri ci]|]; [|intros []].
  destruct (nth_error colorEntries j) as [[rj cj]|]; [|intros []].
  destruct (meetsWCAG_AA (calculateContrastRatio Math_pow (hexOf ci) (hexOf cj))) eqn:E;
    [|intros []].
  intros [<-|[]]. cbn [AccessibilityChecker.text AccessibilityChecker.background ratio].
  split; [exact E | reflexivity].
Qed.

(** C4. Every pair returned by [findAccessiblePairs] has a contrast ratio of
    4.5 or more; the ratio it reports is that contrast ratio rounded to two
    decimals, and is itself 4.5 or more. *)
Theorem findAccessiblePairs_floor (colorEntries : list (string * ColorValue)) :
  Forall (fun p =>
            let c := calculateContrastRatio Math_pow (AccessibilityChecker.text p)
                       (AccessibilityChecker.background p) in
            meetsWCAG_AA c = true
            /\ ratio p = (Math_round (c * 100) / 100)%float
            /\ meetsWCAG_AA (ratio p) = true)
         (findAccessiblePairs Math_pow colorEntries).
Proof.
  apply Forall_forall. intros p Hin. unfold findAccessiblePairs in Hin.
  apply in_flat_map in Hin as (i & _ & Hin).
  apply in_flat_map in Hin as (j & _ & Hin).
  apply in_pairAt in Hin as [Haa Hr]. cbv zeta.
  split; [exact Haa|]. split; [exact Hr|].
  rewrite Hr. unfold meetsWCAG_AA in *. now apply round2_lower.
Qed.

Definition swapPair (p : AccessiblePair) : AccessiblePair :=
  {| AccessibilityChecker.text := AccessibilityChecker.background p;
     AccessibilityChecker.background := AccessibilityChecker.text p;
     ratio := ratio p |}.

Lemma pairAt_swap (colorEntries : list (string * ColorValue)) (i j : nat) :
  map swapPair (pairAt Math_pow colorEntries i j) = pairAt Math_pow colorEntries j i.
Proof.
  unfold pairAt. rewrite (Nat.eqb_sym j i).
  destruct (Nat.eqb i j); [reflexivity|].
  destruct (nth_error colorEntries i) as [[ri ci]|],
           (nth_error colorEntries j) as [[rj cj]|]; try reflexivity.
  rewrite (contrast_swap Math_pow (hexOf cj) (hexOf ci)).
  destruct (meetsWCAG_AA (calculateContrastRatio Math_pow (hexOf ci) (hexOf cj)));
    reflexivity.
Qed.

End AccessiblePairs.

Lemma map_flat_map_list {A B C : Type} (f : B -> C) (g : A -> list B) (l : list A) :
  map f (flat_map g l) = flat_map (fun x => map f (g x)) l.
Proof.
  induction l as [|a l IH]; simpl; [reflexivity|]. now rewrite map_app, IH.
Qed.

Lemma flat_map_app_perm {A B : Type} (f g : A -> list B) (l : list A) :
  Permutation (flat_map (fun x => f x ++ g x) l) (flat_map f l ++ flat_map g l).
Proof.
  induction l as [|a l IH]; simpl; [constructor|].
  rewrite IH, <- !app_assoc. apply Permutation_app_head.
  rewrite !app_assoc. apply Permutation_app_tail, Permutation_app_comm.
Qed.

(** Two nested loops can be exchanged, up to the order of what they emit. *)
Lemma flat_map_exchange {A B C : Type} (g : A -> B -> list C) (l1 : list A) (l2 : list B) :
  Permutation (flat_map (fun i => flat_map (fun j => g i j) l2) l1)
              (flat_map (fun j => flat_map (fun i => g i j) l1) l2).
Proof.
  induction l1 as [|a l1 IH]; simpl.
  - induction l2 as [|b l2 IH2]; simpl; [constructor | exact IH2].
  - rewrite IH. symmetry. apply flat_map_app_perm.
Qed.

Lemma float_eq_dec (x y : float) : {x = y} + {x <> y}.
Proof.
  destruct (PrimFloat.Leibniz.eqb x y) eqn:E.
  - left. now apply FloatAxioms.Leibniz.eqb_spec.
  - right. intros H. apply FloatAxioms.Leibniz.eqb_spec in H. congruence.
Qed.

Lemma pair_eq_dec (p q : AccessiblePair) : {p = q} + {p <> q}.
Proof. decide equality; [apply float_eq_dec | apply string_dec | apply string_dec]. Qed.

Lemma swapPair_involutive (p : AccessiblePair) : swapPair (swapPair p) = p.
Proof. destruct p; reflexivity. Qed.

(** C10. The result of [findAccessiblePairs] is closed under swapping the
    text and background of a pair: swapping every pair permutes the list,
    so a pair occurs in it exactly as often as the swapped pair. *)
Theorem findAccessiblePairs_swap (Math_pow : number -> number -> number)
    (colorEntries : list (string * ColorValue)) :
  Permutation (map swapPair (findAccessiblePairs Math_pow colorEntries))
              (findAccessiblePairs Math_pow colorEntries)
  /\ forall q, count_occ pair_eq_dec (findAccessiblePairs Math_pow colorEntries) q
               = count_occ pair_eq_dec (findAccessiblePairs Math_pow colorEntries)
                           (swapPair q).
Proof.
  assert (P : Permutation (map swapPair (findAccessiblePairs Math_pow colorEntries))
                          (findAccessiblePairs Math_pow colorEntries)).
  { unfold findAccessiblePairs. cbv zeta.
    set (idx := seq 0 (List.length colorEntries)).
    rewrite map_flat_map_list.
    rewrite (flat_map_ext _ (fun i => flat_map (fun j => pairAt Math_pow colorEntries j i) idx)).
    - apply flat_map_exchange.
    - intros i. rewrite map_flat_map_list. apply flat_map_ext. intros j.
      apply pairAt_swap. }
  split; [exact P|]. intros q.
  rewrite <- (proj1 (Permutation_count_occ pair_eq_dec _ _) P (swapPair q)).
  apply (count_occ_map swapPair pair_eq_dec pair_eq_dec).
  intros x y H. rewrite <- (swapPair_involutive x), H. apply swapPair_involutive.
Qed.

(** ** The professional adjustment re-encodes every role *)

(** C2 fails on the code: the adjustment decodes and re-encodes all six
    roles, and the pastel text colour does not survive the round trip
    through integer HSL. *)
Lemma professional_changes_pastel_text (seed : number) :
  hex (PaletteGenerator.text (generatePastelPalette seed)) = "#2A2A2A"%string
  /\ hex (PaletteGenerator.text (_applyProfessionalAdjustments (generatePastelPalette seed)))
     = "#292929"%string.
Proof. split; [reflexivity | vm_compute; reflexivity]. Qed.

(** ** The RGB to HSL round trip *)

Definition roundTrip (r g b : number) : RGB :=
  let hsl := rgbToHsl r g b in
  hslToRgb (hsl_h hsl) (hsl_s hsl) (hsl_l hsl).

(** Every channel of the round trip of an integer triple is within [tol] of
    the original. *)
Definition roundTripWithin (tol : number) (r g b : Z) : bool :=
  let rgb := roundTrip (of_Z r) (of_Z g) (of_Z b) in
  (Math_abs (rgb_r rgb - of_Z r) <=? tol)%float
  && (Math_abs (rgb_g rgb - of_Z g) <=? tol)%float
  && (Math_abs (rgb_b rgb - of_Z b) <=? tol)%float.

(** C7 fails on the code: dark blue (0, 0, 23) reads as HSL (240, 100, 5)
    and comes back as (0, 0, 26), three away; (2, 228, 230) comes back as
    (2, 223, 227), five away. *)
Lemma hsl_round_trip_exceeds_two :
  (roundTrip 0 0 23 = {| rgb_r := 0; rgb_g := 0; rgb_b := 26 |})%float
  /\ roundTripWithin 2%float 0 0 23 = false
  /\ (roundTrip 2 228 230 = {| rgb_r := 2; rgb_g := 223; rgb_b := 227 |})%float.
Proof. repeat split; vm_compute; reflexivity. Qed.

(** * Further properties of the code *)

(** ** The contrast evaluator *)

Lemma Prim2SF_7 : Prim2SF 7 = S754_finite false 7881299347898368 (-50).
Proof. reflexivity. Qed.

(** X1. A ratio that meets WCAG AAA (at least 7) meets WCAG AA (at least
    4.5). *)
Theorem meetsWCAG_AAA_AA (contrastRatio : number)
    (Haaa : meetsWCAG_AAA contrastRatio = true) :
  meetsWCAG_AA contrastRatio = true.
Proof.
  unfold meetsWCAG_AAA, meetsWCAG_AA in *.
  rewrite FloatAxioms.leb_spec in *. rewrite Prim2SF_7 in Haaa. rewrite Prim2SF_4_5.
  apply SFleb_finite_inv in Haaa; [|lia|apply Prim2SF_valid].
  destruct Haaa as [->|(mx & ex & -> & _ & Hord)]; [reflexivity|].
  unfold SFleb. cbn [SFcompare].
  destruct (Z.compare_spec (-50) ex) as [E|L|G]; try reflexivity; [|lia].
  change (Pos.compare_cont Eq 5066549580791808 mx) with (Pos.compare 5066549580791808 mx).
  assert (Hle : (5066549580791808 <= mx)%positive) by lia. unfold Pos.le in Hle.
  destruct (5066549580791808 ?= mx)%positive;
    [reflexivity | reflexivity | exfalso; apply Hle; reflexivity].
Qed.

Lemma meetsWCAG_AAA_AA_witness :
  meetsWCAG_AAA 21%float = true /\ meetsWCAG_AA 21%float = true.
Proof. split; [reflexivity | apply (meetsWCAG_AAA_AA 21%float); reflexivity]. Defined.

(** A number divided by itself is 1, or NaN: never 4.5 or more. *)
Lemma div_self_below (x : float) : (4.5 <=? x / x)%float = false.
Proof.
  rewrite FloatAxioms.leb_spec, FloatAxioms.div_spec, Prim2SF_4_5.
  destruct (Prim2SF x) as [s|s| |s m e]; [reflexivity|reflexivity|reflexivity|].
  unfold SF64div, SFdiv, SFdiv_core_binary.
  replace (Zdigits2 (Zpos m) + e - (Zdigits2 (Zpos m) + e)) with 0 by lia.
  replace (e - e) with 0 by lia.
  change (Z.min (fexp prec emax 0) 0) with (-53).
  change (0 - -53) with 53.
  rewrite Z.shiftl_mul_pow2 by lia.
  assert (E : Z.div_eucl (Zpos m * 2 ^ 53) (Zpos m) = (2 ^ 53, 0)).
  { pose proof (Z.div_eucl_eq (Zpos m * 2 ^ 53) (Zpos m) ltac:(lia)) as Hq.
    pose proof (Z.mod_pos_bound (Zpos m * 2 ^ 53) (Zpos m) ltac:(lia)) as Hr.
    unfold Z.modulo in Hr.
    destruct (Z.div_eucl (Zpos m * 2 ^ 53) (Zpos m)) as [q r].
    assert (r = 0 /\ q = 2 ^ 53) as [-> ->]; [|reflexivity].
    assert (Hm : Zpos m * (2 ^ 53 - q) = r) by lia.
    assert (2 ^ 53 - q = 0 \/ 2 ^ 53 - q <= -1 \/ 1 <= 2 ^ 53 - q) as [Z0|[N|P]] by lia.
    - rewrite Z0 in Hm. lia.
    - assert (Zpos m * (2 ^ 53 - q) <= Zpos m * -1) by (apply Z.mul_le_mono_nonneg_l; lia).
      lia.
    - assert (Zpos m * 1 <= Zpos m * (2 ^ 53 - q)) by (apply Z.mul_le_mono_nonneg_l; lia).
      lia. }
  rewrite E.
  assert (L : new_location (Zpos m) 0 = loc_Exact).
  { unfold new_location, new_location_even, new_location_odd.
    destruct (Z.even (Zpos m)); reflexivity. }
  rewrite L. destruct s; reflexivity.
Qed.

Lemma lt_irrefl (x : float) : (x <? x)%float = false.
Proof.
  destruct (x <? x)%float eqn:E; [|reflexivity].
  pose proof (lt_asym x x E). congruence.
Qed.

Lemma Math_max_min_self (x : number) : Math_max x x = Math_min x x.
Proof.
  unfold Math_max, Math_min. rewrite lt_irrefl.
  destruct (PrimFloat.is_nan x || PrimFloat.is_nan x); [reflexivity|].
  destruct (PrimFloat.is_zero x) eqn:Z; [|reflexivity].
  apply float_is_zero_spec in Z as [s Hs].
  apply Prim2SF_inj.
  rewrite FloatAxioms.add_spec, FloatAxioms.opp_spec, FloatAxioms.sub_spec,
    FloatAxioms.opp_spec, Hs.
  destruct s; reflexivity.
Qed.

Section MorePairs.

Variable Math_pow : number -> number -> number.

(** The contrast of a colour with itself never meets AA. *)
Lemma contrast_self (a : string) :
  meetsWCAG_AA (calculateContrastRatio Math_pow a a) = false.
Proof.
  unfold meetsWCAG_AA, calculateContrastRatio. cbv zeta.
  rewrite Math_max_min_self. apply div_self_below.
Qed.

Lemma pairAt_shape (colorEntries : list (string * ColorValue)) (i j : nat)
    (p : AccessiblePair) :
  In p (pairAt Math_pow colorEntries i j) ->
  i <> j /\ exists ri ci rj cj,
    nth_error colorEntries i = Some (ri, ci) /\ nth_error colorEntries j = Some (rj, cj)
    /\ AccessibilityChecker.text p = hexOf ci
    /\ AccessibilityChecker.background p = hexOf cj
    /\ meetsWCAG_AA (calculateContrastRatio Math_pow (hexOf ci) (hexOf cj)) = true.
Proof.
  unfold pairAt. destruct (Nat.eqb i j) eqn:Eij; [intros []|].
  apply Nat.eqb_neq in Eij.
  destruct (nth_error colorEntries i) as [[ri ci]|]; [|intros []].
  destruct (nth_error colorEntries j) as [[rj cj]|]; [|intros []].
  destruct (meetsWCAG_AA (calculateContrastRatio Math_pow (hexOf ci) (hexOf cj))) eqn:E;
    [|intros []].
  intros [<-|[]]. split; [exact Eij|]. exists ri, ci, rj, cj. repeat split. exact E.
Qed.

(** X2. [findAccessiblePairs] never reports a colour against itself: the
    text and background of every returned pair are different hex strings,
    even when two roles of the palette share a colour. *)
Theorem findAccessiblePairs_irreflexive (colorEntries : list (string * ColorValue)) :
  Forall (fun p => AccessibilityChecker.text p <> AccessibilityChecker.background p)
         (findAccessiblePairs Math_pow colorEntries).
Proof.
  apply Forall_forall. intros p Hin. unfold findAccessiblePairs in Hin.
  apply in_flat_map in Hin as (i & _ & Hin).
  apply in_flat_map in Hin as (j & _ & Hin).
  apply pairAt_shape in Hin as (_ & ri & ci & rj & cj & _ & _ & Ht & Hb & Haa).
  rewrite Ht, Hb. intros E. rewrite E, contrast_self in Haa. discriminate.
Qed.

(** X3. [findAccessiblePairs] misses nothing: two entries at different
    positions whose contrast ratio meets AA are reported, text first, with
    the ratio rounded to two decimals. *)
Theorem findAccessiblePairs_complete (colorEntries : list (string * ColorValue))
    (i j : nat) (ri rj : string) (ci cj : ColorValue)
    (Hij : i <> j)
    (Hi : nth_error colorEntries i = Some (ri, ci))
    (Hj : nth_error colorEntries j = Some (rj, cj))
    (Haa : meetsWCAG_AA (calculateContrastRatio Math_pow (hexOf ci) (hexOf cj)) = true) :
  In {| AccessibilityChecker.text := hexOf ci;
        AccessibilityChecker.background := hexOf cj;
        ratio := (Math_round (calculateContrastRatio Math_pow (hexOf ci) (hexOf cj) * 100)
                  / 100)%float |}
     (findAccessiblePairs Math_pow colorEntries).
Proof.
  unfold findAccessiblePairs. cbv zeta.
  apply in_flat_map. exists i. split.
  { apply in_seq. split; [lia|]. apply nth_error_Some. congruence. }
  apply in_flat_map. exists j. split.
  { apply in_seq. split; [lia|]. apply nth_error_Some. congruence. }
  unfold pairAt. apply Nat.eqb_neq in Hij. rewrite Hij, Hi, Hj, Haa. left. reflexivity.
Qed.

Lemma pairAt_length (colorEntries : list (string * ColorValue)) (i j : nat) :
  (List.length (pairAt Math_pow colorEntries i j) <= 1)%nat.
Proof.
  unfold pairAt. destruct (Nat.eqb i j); [simpl; lia|].
  destruct (nth_error colorEntries i) as [[ri ci]|]; [|simpl; lia].
  destruct (nth_error colorEntries j) as [[rj cj]|]; [|simpl; lia].
  destruct (meetsWCAG_AA _); simpl; lia.
Qed.

Lemma pairAt_diag (colorEntries : list (string * ColorValue)) (i : nat) :
  pairAt Math_pow colorEntries i i = [].
Proof. unfold pairAt. now rewrite Nat.eqb_refl. Qed.

End MorePairs.

Lemma flat_map_length_le {A B : Type} (f : A -> list B) (k : nat) (l : list A) :
  (forall x, In x l -> List.length (f x) <= k)%nat ->
  (List.length (flat_map f l) <= List.length l * k)%nat.
Proof.
  induction l as [|a l IH]; intros H; simpl; [lia|].
  rewrite length_app.
  pose proof (H a (or_introl eq_refl)).
  assert (List.length (flat_map f l) <= List.length l * k)%nat
    by (apply IH; intros x Hx; apply H; now right).
  lia.
Qed.

(** A loop over [len] consecutive indices that emits at most one element per
    index, and none at index [i], emits fewer than [len] elements. *)
Lemma flat_map_seq_skip {B : Type} (g : nat -> list B) (i start len : nat) :
  (forall j, List.length (g j) <= 1)%nat -> g i = [] ->
  (start <= i < start + len)%nat ->
  (List.length (flat_map g (seq start len)) + 1 <= len)%nat.
Proof.
  intros Hg Hi. revert start. induction len as [|len IH]; intros start Hr; [lia|].
  cbn [seq flat_map]. rewrite length_app.
  destruct (Nat.eq_dec i start) as [->|Hne].
  - rewrite Hi. cbn [List.length].
    pose proof (flat_map_length_le g 1 (seq (S start) len) (fun x _ => Hg x)) as L.
    rewrite length_seq in L. lia.
  - pose proof (Hg start). specialize (IH (S start) ltac:(lia)). lia.
Qed.

(** X4. A palette of [n] entries has at most [n * (n - 1)] accessible pairs:
    none for an empty or one-colour palette, at most 30 for six roles. *)
Theorem findAccessiblePairs_length (Math_pow : number -> number -> number)
    (colorEntries : list (string * ColorValue)) :
  (List.length (findAccessiblePairs Math_pow colorEntries)
   <= List.length colorEntries * (List.length colorEntries - 1))%nat.
Proof.
  unfold findAccessiblePairs. cbv zeta.
  set (n := List.length colorEntries).
  replace (n * (n - 1))%nat with (List.length (seq 0 n) * (n - 1))%nat
    by (rewrite length_seq; reflexivity).
  apply flat_map_length_le. intros i Hi. apply in_seq in Hi.
  assert (H : (List.length (flat_map (fun j => pairAt Math_pow colorEntries i j) (seq 0 n))
               + 1 <= n)%nat)
    by exact (flat_map_seq_skip (pairAt Math_pow colorEntries i) i 0 n
                (pairAt_length Math_pow colorEntries i)
                (pairAt_diag Math_pow colorEntries i) ltac:(lia)).
  lia.
Qed.

Lemma findAccessiblePairs_complete_witness :
  In {| AccessibilityChecker.text := "#000000";
        AccessibilityChecker.background := "#FFFFFF";
        ratio := (Math_round (calculateContrastRatio (fun x _ => x) "#000000" "#FFFFFF" * 100)
                  / 100)%float |}
     (findAccessiblePairs (fun x _ => x)
        [("text"%string, HexString "#000000"); ("background"%string, HexString "#FFFFFF")]).
Proof.
  apply (findAccessiblePairs_complete (fun x _ => x)
           [("text"%string, HexString "#000000"); ("background"%string, HexString "#FFFFFF")]
           0%nat 1%nat "text" "background" (HexString "#000000") (HexString "#FFFFFF"));
    [discriminate | reflexivity | reflexivity | reflexivity].
Defined.

(** ** The palette synthesiser *)

(** The properties of [generate] below are stated for application types and
    moods that are not inherited names: on those the lookups in the tables
    find an own property or nothing. *)

Ltac split_ifs :=
  repeat match goal with
         | |- context [if ?b then _ else _] => destruct b
         end.

Lemma ownKeyOnly_existsb (key : string) :
  ownKeyOnly key = true -> existsb (String.eqb key) inheritedKeys = false.
Proof. unfold ownKeyOnly. intros H. now apply negb_true_iff in H. Qed.

Section Shape.

Variable Math_pow : number -> number -> number.
Variable inheritedText : string -> string.

(** The three names of a call without inherited names are strings, not
    empty and pairwise different. *)
Lemma names_plain (colorMood appType : string) :
  ownKeyOnly appType = true -> ownKeyOnly colorMood = true ->
  exists n0 n1 n2,
    _generatePaletteName inheritedText colorMood appType 0 = Some n0
    /\ _generatePaletteName inheritedText colorMood appType 1 = Some n1
    /\ _generatePaletteName inheritedText colorMood appType 2 = Some n2
    /\ distinct3 n0 n1 n2 = true
    /\ n0 <> ""%string /\ n1 <> ""%string /\ n2 <> ""%string.
Proof.
  intros Htype Hmood.
  apply ownKeyOnly_existsb in Htype, Hmood.
  unfold _generatePaletteName, lookup. rewrite Htype, Hmood.
  unfold moodNames, typeModifiers, coolNames. cbn [ownProperty].
  split_ifs; cbn; do 3 eexists; repeat split; discriminate.
Qed.


Lemma adjusted_roles :
  forall gen adj seed, In gen moodGenerators -> In adj typeAdjustments ->
    map (fun e => (role (snd e), usage (snd e))) (Object_entries (adj (gen seed)))
    = map (fun e => (role (snd e), usage (snd e)))
          (Object_entries (generateWarmPalette 0%float)).
Proof.
  intros gen adj seed Hgen Hadj.
  cbn [moodGenerators typeAdjustments In] in Hgen, Hadj.
  destruct Hgen as [<-|[<-|[<-|[<-|[]]]]]; destruct Hadj as [<-|[<-|[<-|[]]]];
    reflexivity.
Qed.

Lemma vibe_not_empty (colorMood appType vibe : string) :
  _generateVibeDescription inheritedText colorMood appType = Return vibe ->
  vibe <> ""%string.
Proof.
  unfold _generateVibeDescription, lookup, moodDescriptions. cbv zeta. cbn [ownProperty].
  split_ifs; cbn; intros E; try discriminate E; injection E as <-; discriminate.
Qed.

(** X6. [generate] returns exactly three palettes; in each, every colour
    carries the role it is stored under and its usage text, also after the
    adjustment of the application type, and name and vibe are not empty. *)
Theorem generate_shape (preferences : Preferences)
    (Hplain : plainPreferences preferences = true) :
  exists ps,
    generate Math_pow inheritedText preferences = Return ps
    /\ List.length ps = 3%nat
    /\ Forall (fun p =>
                 map (fun e => role (snd e)) (Object_entries (colors p))
                 = map fst (Object_entries (colors p))
                 /\ Forall (fun e => usage (snd e) <> ""%string)
                           (Object_entries (colors p))
                 /\ name p <> ""%string /\ vibe p <> ""%string)
              ps.
Proof.
  apply andb_true_iff in Hplain as [Htype Hmood].
  destruct (vibe_plain inheritedText _ (appType preferences) Hmood) as [vibe Hv].
  pose proof (generate_Return Math_pow inheritedText preferences vibe Hv) as E.
  eexists. split; [exact E|]. split; [reflexivity|].
  apply Forall_forall. intros p Hin.
  assert (Hnv : name p <> ""%string /\ PaletteGenerator.vibe p <> ""%string).
  { destruct (names_plain _ _ Htype Hmood) as (n0 & n1 & n2 & E0 & E1 & E2 & _ & H0 & H1 & H2).
    pose proof (vibe_not_empty _ _ _ Hv) as Hvibe.
    cbn [In] in Hin. destruct Hin as [<-|[<-|[<-|[]]]];
      unfold paletteAt, paletteOf; cbv zeta; cbn [name PaletteGenerator.vibe];
      rewrite ?E0, ?E1, ?E2; cbn [text_of]; split; assumption. }
  destruct (generate_colors Math_pow inheritedText preferences _ p E Hin)
    as (seed & _ & Hc).
  destruct (typeAdjust_cases (appType preferences)) as (adj & Hadj & Eadj).
  destruct (moodPalette_cases (colorMood preferences)) as (gen & Hgen & Egen).
  rewrite Eadj, Egen in Hc.
  pose proof (adjusted_roles gen adj seed Hgen Hadj) as R. rewrite <- Hc in R.
  split; [|split; [|exact Hnv]].
  - apply (f_equal (map fst)) in R. rewrite !map_map in R. cbn [fst] in R.
    rewrite R. reflexivity.
  - apply (f_equal (map snd)) in R. rewrite !map_map in R. cbn [snd] in R.
    apply Forall_forall. intros e He.
    apply (in_map (fun e => usage (snd e))) in He. rewrite R in He.
    cbn in He. intros E'. rewrite E' in He.
    repeat (destruct He as [He|He]; [discriminate He|]). exact He.
Qed.

End Shape.


Lemma generate_shape_witness :
  exists ps,
    generate (fun x _ => x) (fun key => key) (mkPreferences "portfolio" "Z" "dark")
    = Return ps
    /\ List.length ps = 3%nat.
Proof.
  destruct (generate_shape (fun x _ => x) (fun key => key)
              (mkPreferences "portfolio" "Z" "dark") eq_refl) as (ps & E & Hlen & _).
  exists ps. split; assumption.
Defined.

(** *** Hue, saturation and lightness of generated colours *)

Definition readsHue (col : Color) : number := hsl_h (hslOfHex (hex col)).
Definition readsSaturation (col : Color) : number := hsl_s (hslOfHex (hex col)).
Definition readsLightness (col : Color) : number := hsl_l (hslOfHex (hex col)).

(** Warm spectrum: hue in [[0, 60]] or [[330, 360]]. *)
Definition warmHues (c : Colors) : bool :=
  forallb (fun col => let h := readsHue col in
                      ((0 <=? h) && (h <=? 60) || (330 <=? h) && (h <=? 360))%float)
          (chromatic c).

(** Cool spectrum: hue in [[150, 330]]. *)
Definition coolHues (c : Colors) : bool :=
  forallb (fun col => let h := readsHue col in ((150 <=? h) && (h <=? 330))%float)
          (chromatic c).

Lemma warm_hue_seeds :
  forallb (fun adj => forallb (fun seed => warmHues (adj (generateWarmPalette (of_Z seed))))
                              hueRange) typeAdjustments = true.
Proof. vm_compute. reflexivity. Qed.

Lemma cool_hue_seeds :
  forallb (fun adj => forallb (fun seed => coolHues (adj (generateCoolPalette (of_Z seed))))
                              hueRange) typeAdjustments = true.
Proof. vm_compute. reflexivity. Qed.

Definition knownMood (colorMood : string) : bool :=
  (colorMood =? "warm")%string || (colorMood =? "cool")%string
  || (colorMood =? "pastel")%string || (colorMood =? "dark")%string.

Lemma moodPalette_cool (colorMood : string) (seed : number) :
  colorMood = "cool"%string \/ knownMood colorMood = false ->
  moodPalette colorMood seed = generateCoolPalette seed.
Proof.
  unfold knownMood, moodPalette. intros [->|H]; [reflexivity|].
  destruct (colorMood =? "warm")%string; [discriminate H|].
  destruct (colorMood =? "cool")%string; [reflexivity|].
  destruct (colorMood =? "pastel")%string; [discriminate H|].
  destruct (colorMood =? "dark")%string; [discriminate H | reflexivity].
Qed.

Section PlainCalls.

Variable Math_pow : number -> number -> number.
Variable inheritedText : string -> string.

(** A call without inherited names returns three palettes, each the adjusted
    mood palette of an integer seed of [[0, 360)]: what holds of all of these
    holds of the three. *)
Lemma generate_plain_Forall (preferences : Preferences) (P : Palette -> Prop) :
  ownKeyOnly (appType preferences) = true ->
  ownKeyOnly (colorMood preferences) = true ->
  (forall p z, In z hueRange ->
     colors p = typeAdjust (appType preferences)
                  (moodPalette (colorMood preferences) (of_Z z)) -> P p) ->
  exists ps,
    generate Math_pow inheritedText preferences = Return ps
    /\ List.length ps = 3%nat
    /\ Forall P ps.
Proof.
  intros Htype Hmood HP.
  destruct (generate_returns Math_pow inheritedText preferences Hmood) as [vibe E].
  eexists. split; [exact E|]. split; [reflexivity|].
  apply Forall_forall. intros p Hp.
  destruct (generate_colors_plain Math_pow inheritedText preferences _ p Htype E Hp)
    as (z & Hz & Hc).
  exact (HP p z Hz Hc).
Qed.

End PlainCalls.

(** X7. With the warm mood every chromatic colour of every generated
    palette reads back with a hue in [[0, 60]] or [[330, 360]]; with the cool
    mood, and with any mood the generator does not know (it falls back to
    cool), with a hue in [[150, 330]]. Both hold under every application
    type (inherited names apart). *)
Theorem generate_hue_compliance (Math_pow : number -> number -> number)
    (inheritedText : string -> string)
    (type why : string) (Htype : ownKeyOnly type = true) :
  (exists ps,
      generate Math_pow inheritedText (mkPreferences type why "warm") = Return ps
      /\ List.length ps = 3%nat
      /\ Forall (fun p => warmHues (colors p) = true) ps)
  /\ forall mood, ownKeyOnly mood = true ->
       mood = "cool"%string \/ knownMood mood = false ->
       exists ps,
         generate Math_pow inheritedText (mkPreferences type why mood) = Return ps
         /\ List.length ps = 3%nat
         /\ Forall (fun p => coolHues (colors p) = true) ps.
Proof.
  destruct (typeAdjust_cases type) as (adj & Hadj & Eadj).
  split; [|intros mood Hown Hmood].
  - apply (generate_plain_Forall Math_pow inheritedText (mkPreferences type why "warm"));
      [exact Htype | reflexivity |].
    intros p z Hz ->. cbn [appType colorMood]. rewrite Eadj.
    change (moodPalette "warm" (of_Z z)) with (generateWarmPalette (of_Z z)).
    pose proof warm_hue_seeds as A.
    rewrite forallb_forall in A. specialize (A adj Hadj).
    rewrite forallb_forall in A. exact (A z Hz).
  - apply (generate_plain_Forall Math_pow inheritedText (mkPreferences type why mood));
      [exact Htype | exact Hown |].
    intros p z Hz ->. cbn [appType colorMood]. rewrite Eadj.
    rewrite (moodPalette_cool mood (of_Z z) Hmood).
    pose proof cool_hue_seeds as A.
    rewrite forallb_forall in A. specialize (A adj Hadj).
    rewrite forallb_forall in A. exact (A z Hz).
Qed.

Lemma generate_hue_compliance_witness :
  exists ps,
    generate (fun x _ => x) (fun key => key) (mkPreferences "saas" "Z" "sunny") = Return ps
    /\ List.length ps = 3%nat
    /\ Forall (fun p => coolHues (colors p) = true) ps.
Proof.
  apply (generate_hue_compliance (fun x _ => x) (fun key => key) "saas" "Z");
    [reflexivity | reflexivity | right; reflexivity].
Defined.

Definition professionalType (appType : string) : bool :=
  (appType =? "professional")%string || (appType =? "web-dashboard")%string
  || (appType =? "saas")%string.

Definition playfulType (appType : string) : bool :=
  (appType =? "playful")%string || (appType =? "mobile-app")%string.

Lemma typeAdjust_professional (appType : string) (c : Colors) :
  professionalType appType = true -> typeAdjust appType c = _applyProfessionalAdjustments c.
Proof. unfold typeAdjust, professionalType. now intros ->. Qed.

Lemma typeAdjust_playful (appType : string) (c : Colors) :
  playfulType appType = true -> typeAdjust appType c = _applyPlayfulAdjustments c.
Proof.
  unfold typeAdjust, playfulType. intros H.
  destruct ((appType =? "professional")%string || (appType =? "web-dashboard")%string
            || (appType =? "saas")%string) eqn:E; [|now rewrite H].
  exfalso. apply orb_true_iff in H.
  repeat rewrite orb_true_iff in E. rewrite !String.eqb_eq in *.
  destruct H as [->| ->]; intuition discriminate.
Qed.

Lemma professionalType_own (appType : string) :
  professionalType appType = true -> ownKeyOnly appType = true.
Proof.
  unfold professionalType. rewrite !orb_true_iff, !String.eqb_eq.
  intros [[->| ->]| ->]; reflexivity.
Qed.

Lemma playfulType_own (appType : string) :
  playfulType appType = true -> ownKeyOnly appType = true.
Proof.
  unfold playfulType. rewrite !orb_true_iff, !String.eqb_eq.
  intros [->| ->]; reflexivity.
Qed.

(** Saturation capped: every chromatic role reads back with [s <= 58]. *)
Definition saturationCapped (c : Colors) : bool :=
  forallb (fun col => (readsSaturation col <=? 58)%float) (chromatic c).

Lemma professional_cap_seeds :
  forallb (fun gen => forallb (fun seed =>
                                 saturationCapped (_applyProfessionalAdjustments (gen (of_Z seed))))
                              hueRange) moodGenerators = true.
Proof. vm_compute. reflexivity. Qed.

(** X8. For the professional class of application types (professional,
    web-dashboard, saas) every chromatic colour of every generated palette
    reads back with a saturation of at most 58, under every mood. *)
Theorem generate_professional_cap (Math_pow : number -> number -> number)
    (inheritedText : string -> string) (preferences : Preferences)
    (Htype : professionalType (appType preferences) = true)
    (Hmood : ownKeyOnly (colorMood preferences) = true) :
  exists ps,
    generate Math_pow inheritedText preferences = Return ps
    /\ List.length ps = 3%nat
    /\ Forall (fun p => saturationCapped (colors p) = true) ps.
Proof.
  apply generate_plain_Forall; [apply professionalType_own, Htype | exact Hmood |].
  intros p z Hz ->.
  rewrite (typeAdjust_professional _ _ Htype).
  destruct (moodPalette_cases (colorMood preferences)) as (gen & Hgen & ->).
  pose proof professional_cap_seeds as A.
  rewrite forallb_forall in A. specialize (A gen Hgen).
  rewrite forallb_forall in A. exact (A z Hz).
Qed.

Lemma generate_professional_cap_witness :
  exists ps,
    generate (fun x _ => x) (fun key => key) (mkPreferences "saas" "Z" "dark") = Return ps
    /\ List.length ps = 3%nat
    /\ Forall (fun p => saturationCapped (colors p) = true) ps.
Proof. apply generate_professional_cap; reflexivity. Defined.

(** Accent boosted: [s >= 65] and [l >= 52]. *)
Definition accentBoosted (c : Colors) : bool :=
  ((65 <=? readsSaturation (accent c)) && (52 <=? readsLightness (accent c)))%float.

Definition vividGenerators : list (number -> Colors) :=
  [generateWarmPalette; generateCoolPalette; generateDarkModePalette].

Lemma playful_boost_seeds :
  forallb (fun gen => forallb (fun seed => accentBoosted (_applyPlayfulAdjustments (gen (of_Z seed))))
                              hueRange) vividGenerators = true.
Proof. vm_compute. reflexivity. Qed.

Lemma moodPalette_not_pastel (colorMood : string) :
  colorMood <> "pastel"%string ->
  exists gen, In gen vividGenerators /\ forall seed, moodPalette colorMood seed = gen seed.
Proof.
  intros Hp. apply String.eqb_neq in Hp.
  unfold moodPalette, vividGenerators. rewrite Hp.
  destruct (colorMood =? "warm")%string.
  { exists generateWarmPalette. split; [apply in_eq | reflexivity]. }
  destruct (colorMood =? "cool")%string.
  { exists generateCoolPalette. split; [apply in_cons, in_eq | reflexivity]. }
  destruct (colorMood =? "dark")%string.
  { exists generateDarkModePalette. split; [do 2 apply in_cons; apply in_eq | reflexivity]. }
  exists generateCoolPalette. split; [apply in_cons, in_eq | reflexivity].
Qed.

(** X9. For the playful class of application types (playful, mobile-app)
    and any mood but pastel, the accent of every generated palette reads
    back with a saturation of at least 65 and a lightness of at least 52. *)
Theorem generate_playful_accent (Math_pow : number -> number -> number)
    (inheritedText : string -> string) (preferences : Preferences)
    (Htype : playfulType (appType preferences) = true)
    (Hown : ownKeyOnly (colorMood preferences) = true)
    (Hmood : colorMood preferences <> "pastel"%string) :
  exists ps,
    generate Math_pow inheritedText preferences = Return ps
    /\ List.length ps = 3%nat
    /\ Forall (fun p => accentBoosted (colors p) = true) ps.
Proof.
  apply generate_plain_Forall; [apply playfulType_own, Htype | exact Hown |].
  intros p z Hz ->.
  rewrite (typeAdjust_playful _ _ Htype).
  destruct (moodPalette_not_pastel _ Hmood) as (gen & Hgen & ->).
  pose proof playful_boost_seeds as A.
  rewrite forallb_forall in A. specialize (A gen Hgen).
  rewrite forallb_forall in A. exact (A z Hz).
Qed.

Lemma generate_playful_accent_witness :
  exists ps,
    generate (fun x _ => x) (fun key => key) (mkPreferences "mobile-app" "Z" "warm")
    = Return ps
    /\ List.length ps = 3%nat
    /\ Forall (fun p => accentBoosted (colors p) = true) ps.
Proof.
  apply generate_playful_accent; [reflexivity | reflexivity | cbn [colorMood]; discriminate].
Defined.

(** The neutral roles of a palette. *)
Definition neutralHexes (c : Colors) : list string :=
  [hex (background c); hex (surface c); hex (PaletteGenerator.text c)].

Definition sameNeutrals (c c' : Colors) : bool :=
  forallb (fun p => (fst p =? snd p)%string) (combine (neutralHexes c) (neutralHexes c')).

Lemma neutral_seeds :
  forallb (fun gen => forallb (fun adj => forallb (fun seed =>
                                                     sameNeutrals (adj (gen (of_Z seed))) (gen (of_Z seed)))
                                                  hueRange) typeAdjustments)
          vividGenerators = true.
Proof. vm_compute. reflexivity. Qed.

Lemma pastel_neutral_seeds :
  forallb (fun adj =>
             forallb (fun seed =>
                        let c := generatePastelPalette (of_Z seed) in
                        (hex (background (adj c)) =? hex (background c))%string
                        && (hex (surface (adj c)) =? hex (surface c))%string)
                     hueRange) typeAdjustments = true.
Proof. vm_compute. reflexivity. Qed.

Lemma sameNeutrals_eq (c c' : Colors) :
  sameNeutrals c c' = true -> neutralHexes c = neutralHexes c'.
Proof.
  unfold sameNeutrals, neutralHexes. cbn [combine forallb fst snd].
  rewrite !andb_true_iff, !String.eqb_eq. intros (-> & -> & -> & _). reflexivity.
Qed.

(** X10. Under every mood but pastel, the adjustment of the application
    type gives back the background, surface and text of the mood palette
    with exactly the same hex strings, for every seed hue; under the pastel
    mood it does so for background and surface. *)
Theorem typeAdjust_keeps_neutrals (appType colorMood : string) (seed : Z)
    (Hseed : 0 <= seed < 360) :
  let c := moodPalette colorMood (of_Z seed) in
  (colorMood <> "pastel"%string -> neutralHexes (typeAdjust appType c) = neutralHexes c)
  /\ hex (background (typeAdjust appType c)) = hex (background c)
  /\ hex (surface (typeAdjust appType c)) = hex (surface c).
Proof.
  cbv zeta. apply in_hueRange in Hseed.
  destruct (typeAdjust_cases appType) as (adj & Hadj & Eadj). rewrite !Eadj.
  assert (Hvivid : forall gen, In gen vividGenerators ->
                     neutralHexes (adj (gen (of_Z seed))) = neutralHexes (gen (of_Z seed))).
  { intros gen Hgen. apply sameNeutrals_eq.
    pose proof neutral_seeds as A.
    rewrite forallb_forall in A. specialize (A gen Hgen).
    rewrite forallb_forall in A. specialize (A adj Hadj).
    rewrite forallb_forall in A. exact (A seed Hseed). }
  split.
  - intros Hmood. destruct (moodPalette_not_pastel _ Hmood) as (gen & Hgen & ->).
    now apply Hvivid.
  - destruct (String.eqb_spec colorMood "pastel") as [->|Hmood].
    + change (moodPalette "pastel" (of_Z seed)) with (generatePastelPalette (of_Z seed)).
      pose proof pastel_neutral_seeds as A.
      rewrite forallb_forall in A. specialize (A adj Hadj).
      rewrite forallb_forall in A. specialize (A seed Hseed). cbv zeta in A.
      apply andb_true_iff in A as [A1 A2]. now rewrite String.eqb_eq in A1, A2.
    + destruct (moodPalette_not_pastel _ Hmood) as (gen & Hgen & ->).
      specialize (Hvivid gen Hgen). unfold neutralHexes in Hvivid.
      injection Hvivid as H1 H2 _. now split.
Qed.

Lemma typeAdjust_keeps_neutrals_witness :
  hex (background (typeAdjust "saas" (moodPalette "dark" (of_Z 200))))
  = hex (background (moodPalette "dark" (of_Z 200))).
Proof. apply (typeAdjust_keeps_neutrals "saas" "dark" 200). lia. Defined.

(** *** The stand-alone generators *)

(** Seed hues as documented: the integers of [[0, 360]]. *)
Definition seedRange : list Z := map Z.of_nat (seq 0 361).

Lemma in_seedRange (z : Z) : 0 <= z <= 360 -> In z seedRange.
Proof.
  intros H. unfold seedRange. apply in_map_iff. exists (Z.to_nat z).
  split; [lia | apply in_seq; lia].
Qed.

(** Blue range of the professional generator: primary and secondary read
    back with a hue in [[180, 270]], the accent 20 degrees further, all
    three with a saturation below 60; the neutral roles are canonical. *)
Definition professionalCompliant (c : Colors) : bool :=
  ((180 <=? readsHue (primary c)) && (readsHue (primary c) <=? 270)
   && (180 <=? readsHue (secondary c)) && (readsHue (secondary c) <=? 270)
   && (200 <=? readsHue (accent c)) && (readsHue (accent c) <=? 290))%float
  && forallb (fun col => (readsSaturation col <? 60)%float) (chromatic c)
  && allCanonical c.

(** Bright, saturated chromatic roles: [s > 60], [l > 50]. *)
Definition playfulCompliant (c : Colors) : bool :=
  forallb (fun col => ((60 <? readsSaturation col) && (50 <? readsLightness col))%float)
          (chromatic c)
  && allCanonical c.

Lemma professional_seeds :
  forallb (fun seed => professionalCompliant (generateProfessionalPalette (of_Z seed))) seedRange
  = true.
Proof. vm_compute. reflexivity. Qed.

Lemma playful_seeds :
  forallb (fun seed => playfulCompliant (generatePlayfulPalette (of_Z seed))) seedRange = true.
Proof. vm_compute. reflexivity. Qed.

(** X11. For every seed hue in [[0, 360]], [generateProfessionalPalette]
    stays in the blue range: primary and secondary read back with a hue in
    [[180, 270]], the accent (20 degrees further) in [[200, 290]], all three
    with a saturation below 60, and all six hexes are [#] with six
    upper-case digits. *)
Theorem generateProfessionalPalette_compliant (seedHue : Z) (Hseed : 0 <= seedHue <= 360) :
  professionalCompliant (generateProfessionalPalette (of_Z seedHue)) = true.
Proof.
  pose proof professional_seeds as A. rewrite forallb_forall in A.
  apply A, in_seedRange, Hseed.
Qed.

Lemma generateProfessionalPalette_compliant_witness :
  professionalCompliant (generateProfessionalPalette (of_Z 360)) = true.
Proof. apply (generateProfessionalPalette_compliant 360). lia. Defined.

(** X12. For every seed hue in [[0, 360]], the three chromatic colours of
    [generatePlayfulPalette] read back with a saturation above 60 and a
    lightness above 50, and all six hexes are [#] with six upper-case
    digits. *)
Theorem generatePlayfulPalette_compliant (seedHue : Z) (Hseed : 0 <= seedHue <= 360) :
  playfulCompliant (generatePlayfulPalette (of_Z seedHue)) = true.
Proof.
  pose proof playful_seeds as A. rewrite forallb_forall in A.
  apply A, in_seedRange, Hseed.
Qed.

Lemma generatePlayfulPalette_compliant_witness :
  playfulCompliant (generatePlayfulPalette (of_Z 0)) = true.
Proof. apply (generatePlayfulPalette_compliant 0). lia. Defined.

(** ** The colour-space converter *)

(** *** From channels to hex and back *)

(** The two digits printed for a byte, upper-cased and parsed back, give the
    byte. *)
Definition channelRoundTrips (v : Z) : bool :=
  let digits := toUpperCase (toHex (of_Z v)) in
  (String.length digits =? 2)%nat && all_upper_digits digits
  && PrimFloat.Leibniz.eqb (parseInt16 digits) (of_Z v).

Lemma channelRoundTrips_all : forallb channelRoundTrips byteRange = true.
Proof. vm_compute. reflexivity. Qed.

Lemma byte_digits (v : Z) :
  0 <= v <= 255 ->
  exists c1 c2, toUpperCase (toHex (of_Z v)) = two c1 c2
                /\ is_upper_digit c1 = true /\ is_upper_digit c2 = true
                /\ parseInt16 (two c1 c2) = of_Z v.
Proof.
  intros Hv. pose proof channelRoundTrips_all as A.
  rewrite forallb_forall in A. specialize (A v (in_byteRange v Hv)).
  unfold channelRoundTrips in A. cbv zeta in A.
  destruct (toUpperCase (toHex (of_Z v))) as [|c1 [|c2 [|c3 rest]]];
    try discriminate A.
  exists c1, c2. cbn [String.length Nat.eqb all_upper_digits andb] in A.
  repeat rewrite andb_true_iff in A. destruct A as [[H1 [H2 _]] E].
  apply FloatAxioms.Leibniz.eqb_spec in E.
  repeat split; assumption.
Qed.

(** X13. For integer channels in [[0, 255]], [rgbToHex] prints [#] and six
    upper-case digits, and [hexToRgb] reads exactly the three channels
    back. *)
Theorem rgbToHex_hexToRgb (r g b : Z)
    (Hr : 0 <= r <= 255) (Hg : 0 <= g <= 255) (Hb : 0 <= b <= 255) :
  let h := rgbToHex (of_Z r) (of_Z g) (of_Z b) in
  canonicalHex h = true /\ hexToRgb h = mkRGB (of_Z r) (of_Z g) (of_Z b).
Proof.
  cbv zeta. unfold rgbToHex.
  change (toUpperCase (String "#" ?s)) with (String "#" (toUpperCase s)).
  rewrite !toUpperCase_app.
  destruct (byte_digits r Hr) as (r1 & r2 & -> & Hr1 & Hr2 & Er).
  destruct (byte_digits g Hg) as (g1 & g2 & -> & Hg1 & Hg2 & Eg).
  destruct (byte_digits b Hb) as (b1 & b2 & -> & Hb1 & Hb2 & Eb).
  split.
  - cbn. now rewrite Hr1, Hr2, Hg1, Hg2, Hb1, Hb2.
  - unfold hexToRgb, two. cbn [strip_hash append substring].
    change (String r1 (String r2 EmptyString)) with (two r1 r2).
    change (String g1 (String g2 EmptyString)) with (two g1 g2).
    change (String b1 (String b2 EmptyString)) with (two b1 b2).
    now rewrite Er, Eg, Eb.
Qed.

Lemma rgbToHex_hexToRgb_witness :
  hexToRgb (rgbToHex (of_Z 255) (of_Z 87) (of_Z 51)) = mkRGB (of_Z 255) (of_Z 87) (of_Z 51).
Proof. apply (rgbToHex_hexToRgb 255 87 51); lia. Defined.

(** *** Greys *)

Definition greyHex (v : Z) : string := rgbToHex (of_Z v) (of_Z v) (of_Z v).

(** A hex that reads back with hue 0 and saturation 0, and whose lightness
    is re-encoded as the grey of level [w]. *)
Definition readsAsGrey (hex : string) (w : Z) : bool :=
  let rgb := hexToRgb hex in
  let hsl := rgbToHsl (rgb_r rgb) (rgb_g rgb) (rgb_b rgb) in
  PrimFloat.Leibniz.eqb (hsl_h hsl) 0%float && PrimFloat.Leibniz.eqb (hsl_s hsl) 0%float
  && (let newRgb := hslToRgb 0%float 0%float (hsl_l hsl) in
      PrimFloat.Leibniz.eqb (rgb_r newRgb) (of_Z w)
      && PrimFloat.Leibniz.eqb (rgb_g newRgb) (of_Z w)
      && PrimFloat.Leibniz.eqb (rgb_b newRgb) (of_Z w)).

(** The level that a grey of level [v] comes back with after a passage
    through integer HSL. *)
Definition greyLevel (v : Z) : Z :=
  trunc (rgb_r (hslToRgb 0%float 0%float (hsl_l (hslOfHex (greyHex v))))).

Definition greyStable (hex : string) (v w : Z) : bool :=
  readsAsGrey hex w && (Z.abs (w - v) <=? 1) && (0 <=? w) && (w <=? 255).

Lemma greys_stable :
  forallb (fun v => greyStable (greyHex v) v (greyLevel v)) byteRange = true.
Proof. vm_compute. reflexivity. Qed.

Lemma hslToRgb_achromatic (h l : number) : hslToRgb h 0%float l = hslToRgb 0%float 0%float l.
Proof. reflexivity. Qed.

Lemma readsAsGrey_adjustHue (hex : string) (w : Z) (degrees : number) :
  readsAsGrey hex w = true -> adjustHue hex degrees = greyHex w.
Proof.
  unfold readsAsGrey, adjustHue. cbv zeta.
  set (rgb := hexToRgb hex).
  set (hsl := rgbToHsl (rgb_r rgb) (rgb_g rgb) (rgb_b rgb)).
  clearbody hsl. destruct hsl as [h s l]. cbn [hsl_h hsl_s hsl_l].
  intros H. repeat rewrite andb_true_iff in H.
  destruct H as [[Hh Hs] H].
  apply FloatAxioms.Leibniz.eqb_spec in Hh, Hs. subst h s.
  rewrite hslToRgb_achromatic.
  set (newRgb := hslToRgb 0%float 0%float l) in *. clearbody newRgb.
  destruct newRgb as [r g b]. cbn [rgb_r rgb_g rgb_b] in *.
  destruct H as [[Hr Hg] Hb].
  apply FloatAxioms.Leibniz.eqb_spec in Hr, Hg, Hb. subst r g b. reflexivity.
Qed.

Lemma readsAsGrey_adjustLightness (hex : string) (w : Z) (amount : number) :
  readsAsGrey hex w = true -> exists c, adjustLightness hex amount = rgbToHex c c c.
Proof.
  unfold readsAsGrey, adjustLightness. cbv zeta.
  set (rgb := hexToRgb hex).
  set (hsl := rgbToHsl (rgb_r rgb) (rgb_g rgb) (rgb_b rgb)).
  clearbody hsl. destruct hsl as [h s l]. cbn [hsl_h hsl_s hsl_l].
  intros H. repeat rewrite andb_true_iff in H.
  destruct H as [[Hh Hs] _].
  apply FloatAxioms.Leibniz.eqb_spec in Hh, Hs. subst h s.
  unfold hslToRgb. cbv zeta.
  change (0 / 100 =? 0)%float with true. cbv iota. cbn [rgb_r rgb_g rgb_b].
  eexists. reflexivity.
Qed.

Lemma greyStable_spec (hex : string) (v w : Z) :
  greyStable hex v w = true ->
  readsAsGrey hex w = true /\ Z.abs (w - v) <= 1 /\ 0 <= w <= 255.
Proof.
  unfold greyStable. repeat rewrite andb_true_iff. rewrite !Z.leb_le. tauto.
Qed.

Lemma grey_stable (v : Z) :
  0 <= v <= 255 ->
  readsAsGrey (greyHex v) (greyLevel v) = true
  /\ Z.abs (greyLevel v - v) <= 1 /\ 0 <= greyLevel v <= 255.
Proof.
  intros Hv. pose proof greys_stable as A.
  rewrite forallb_forall in A. specialize (A v (in_byteRange v Hv)).
  apply greyStable_spec in A. exact A.
Qed.

(** X14. A hue shift never tints a grey: for a grey of level [v] in
    [[0, 255]], [adjustHue] returns one and the same grey for every number of
    degrees, NaN included, at most one level away from [v] (the lightness
    is rounded to a percentage on the way). Hence the complementary, the
    analogous and the triadic colours of a grey are that grey. *)
Theorem adjustHue_grey (v : Z) (Hv : 0 <= v <= 255) :
  exists w, 0 <= w <= 255 /\ Z.abs (w - v) <= 1
            /\ (forall degrees, adjustHue (greyHex v) degrees = greyHex w)
            /\ generateComplementary (greyHex v) = greyHex w
            /\ generateAnalogous (greyHex v) = [greyHex w; greyHex v; greyHex w]
            /\ generateTriadic (greyHex v) = [greyHex v; greyHex w; greyHex w].
Proof.
  destruct (grey_stable v Hv) as (Hg & Hd & Hw).
  exists (greyLevel v). split; [exact Hw | split; [exact Hd|]].
  unfold generateComplementary, generateAnalogous, generateTriadic.
  rewrite !(readsAsGrey_adjustHue _ _ _ Hg).
  repeat split. intros degrees. apply readsAsGrey_adjustHue, Hg.
Qed.

Lemma adjustHue_grey_witness :
  exists w, 0 <= w <= 255 /\ Z.abs (w - 128) <= 1
            /\ (forall degrees, adjustHue (greyHex 128) degrees = greyHex w)
            /\ generateComplementary (greyHex 128) = greyHex w
            /\ generateAnalogous (greyHex 128) = [greyHex w; greyHex 128; greyHex w]
            /\ generateTriadic (greyHex 128) = [greyHex 128; greyHex w; greyHex w].
Proof. apply (adjustHue_grey 128). lia. Defined.

(** X15. A change of lightness keeps a grey grey: for a grey of level [v]
    in [[0, 255]] and any amount, the three channels that [adjustLightness]
    prints are the same. *)
Theorem adjustLightness_grey (v : Z) (amount : number) (Hv : 0 <= v <= 255) :
  exists c, adjustLightness (greyHex v) amount = rgbToHex c c c.
Proof.
  destruct (grey_stable v Hv) as (Hg & _).
  exact (readsAsGrey_adjustLightness _ _ amount Hg).
Qed.

Lemma adjustLightness_grey_witness :
  exists c, adjustLightness (greyHex 200) 10%float = rgbToHex c c c.
Proof. apply adjustLightness_grey. lia. Defined.

(** *** Clamping *)

(** A number that is at most 0 is clamped to [+0] by
    [Math.max(0, Math.min(100, x))]. *)
Lemma clamp_nonpositive (x : number) :
  (x <=? 0)%float = true -> Math_max 0%float (Math_min 100%float x) = 0%float.
Proof.
  intros Hx. rewrite FloatAxioms.leb_spec in Hx.
  assert (Nx : PrimFloat.is_nan x = false).
  { destruct (PrimFloat.is_nan x) eqn:E; [|reflexivity].
    apply float_is_nan_spec in E. rewrite E in Hx. discriminate Hx. }
  assert (H100 : (100 <? x)%float = false).
  { rewrite FloatAxioms.ltb_spec.
    destruct (Prim2SF x) as [[|]|[|]| |[|] m e]; try reflexivity; discriminate Hx. }
  assert (Hlt : (x <? 100)%float = true).
  { rewrite FloatAxioms.ltb_spec.
    destruct (Prim2SF x) as [[|]|[|]| |[|] m e]; try reflexivity; discriminate Hx. }
  assert (Hmin : Math_min 100%float x = x).
  { unfold Math_min. rewrite Nx, H100, Hlt. reflexivity. }
  rewrite Hmin. unfold Math_max. rewrite Nx.
  change (PrimFloat.is_nan 0%float) with false. cbn [orb].
  assert (H0 : (0 <? x)%float = false).
  { rewrite FloatAxioms.ltb_spec.
    destruct (Prim2SF x) as [[|]|[|]| |[|] m e]; try reflexivity; discriminate Hx. }
  rewrite H0.
  destruct (x <? 0)%float eqn:Hneg; [reflexivity|].
  change (PrimFloat.is_zero 0%float) with true. cbv iota.
  rewrite FloatAxioms.ltb_spec in Hneg.
  apply Prim2SF_inj. rewrite FloatAxioms.add_spec.
  destruct (Prim2SF x) as [[|]|[|]| |[|] m e]; try reflexivity; discriminate.
Qed.

(** X16. Taking away at least the saturation that a colour reads back with
    gives a grey: when the sum of that saturation and the amount is at most
    0, it is clamped to 0 and the three channels that [adjustSaturation]
    prints are the same. *)
Theorem adjustSaturation_desaturates (hex : string) (amount : number)
    (Hamount : (hsl_s (hslOfHex hex) + amount <=? 0)%float = true) :
  exists w, adjustSaturation hex amount = rgbToHex w w w.
Proof.
  unfold hslOfHex in Hamount. cbv zeta in Hamount.
  unfold adjustSaturation. cbv zeta.
  rewrite (clamp_nonpositive _ Hamount), hslToRgb_achromatic.
  unfold hslToRgb. cbv zeta.
  change (0 / 100 =? 0)%float with true. cbv iota. cbn [rgb_r rgb_g rgb_b].
  eexists. reflexivity.
Qed.

Lemma adjustSaturation_desaturates_witness :
  exists w, adjustSaturation "#CF8C4A" (-100)%float = rgbToHex w w w.
Proof. apply adjustSaturation_desaturates. reflexivity. Defined.

(** ** Colours that do not parse *)

(** A hex string with a channel that [parseInt] reads as NaN: too short (the
    CSS shorthand [#FFF]), or with a pair of characters that does not start
    with a radix-16 digit. *)
Definition unparsed (hex : string) : bool :=
  let rgb := hexToRgb hex in
  PrimFloat.is_nan (rgb_r rgb) || PrimFloat.is_nan (rgb_g rgb) || PrimFloat.is_nan (rgb_b rgb).

Lemma is_nan_eq (x : float) : PrimFloat.is_nan x = true -> x = nan.
Proof.
  intros H. apply float_is_nan_spec in H. apply Prim2SF_inj. rewrite H. reflexivity.
Qed.

Lemma nan_add_l (x : float) : (nan + x)%float = nan.
Proof.
  apply Prim2SF_inj. rewrite FloatAxioms.add_spec.
  change (Prim2SF nan) with S754_nan. reflexivity.
Qed.

Lemma nan_add_r (x : float) : (x + nan)%float = nan.
Proof.
  apply Prim2SF_inj. rewrite FloatAxioms.add_spec.
  change (Prim2SF nan) with S754_nan.
  destruct (Prim2SF x) as [s|s| |s m e]; reflexivity.
Qed.

Lemma Math_max_nan_l (x : number) : Math_max nan x = nan.
Proof. reflexivity. Qed.

Lemma Math_max_nan_r (x : number) : Math_max x nan = nan.
Proof. unfold Math_max. change (PrimFloat.is_nan nan) with true. now rewrite orb_true_r. Qed.

Lemma Math_min_nan_l (x : number) : Math_min nan x = nan.
Proof. reflexivity. Qed.

Lemma Math_min_nan_r (x : number) : Math_min x nan = nan.
Proof. unfold Math_min. change (PrimFloat.is_nan nan) with true. now rewrite orb_true_r. Qed.

Section Unparsed.

Variable Math_pow : number -> number -> number.

(** [Math.pow(NaN, 2.4)] is NaN. *)
Hypothesis pow_nan : Math_pow nan 2.4%float = nan.

Lemma linearize_nan : linearize Math_pow (nan / 255)%float = nan.
Proof. exact pow_nan. Qed.

Lemma luminance_unparsed (hex : string) :
  unparsed hex = true -> getRelativeLuminance Math_pow hex = nan.
Proof.
  unfold unparsed, hexToRgb, getRelativeLuminance. cbv zeta. cbn [rgb_r rgb_g rgb_b].
  intros H. apply orb_true_iff in H as [H|H]; [apply orb_true_iff in H as [H|H]|];
    apply is_nan_eq in H; rewrite H, linearize_nan.
  - change (0.2126 * nan)%float with nan. now rewrite !nan_add_l.
  - change (0.7152 * nan)%float with nan. now rewrite nan_add_r, nan_add_l.
  - change (0.0722 * nan)%float with nan. now rewrite nan_add_r.
Qed.

Lemma contrast_unparsed (a b : string) :
  unparsed a = true \/ unparsed b = true ->
  meetsWCAG_AA (calculateContrastRatio Math_pow a b) = false.
Proof.
  unfold calculateContrastRatio. cbv zeta.
  intros [H|H]; rewrite (luminance_unparsed _ H).
  - rewrite Math_max_nan_l, Math_min_nan_l. reflexivity.
  - rewrite Math_max_nan_r, Math_min_nan_r. reflexivity.
Qed.

(** X17. A colour that does not parse never enters an accessible pair:
    when a channel of the text or of the background is NaN (a three-digit
    shorthand, a colour name), the luminance and the contrast ratio are NaN
    and the pair is left out. [Math.pow] is only asked to give NaN on
    NaN. *)
Theorem findAccessiblePairs_parsed (colorEntries : list (string * ColorValue)) :
  Forall (fun p => unparsed (AccessibilityChecker.text p) = false
                   /\ unparsed (AccessibilityChecker.background p) = false)
         (findAccessiblePairs Math_pow colorEntries).
Proof.
  apply Forall_forall. intros p Hin. unfold findAccessiblePairs in Hin.
  apply in_flat_map in Hin as (i & _ & Hin).
  apply in_flat_map in Hin as (j & _ & Hin).
  apply pairAt_shape in Hin as (_ & ri & ci & rj & cj & _ & _ & Ht & Hb & Haa).
  rewrite Ht, Hb.
  destruct (unparsed (hexOf ci)) eqn:Ei.
  { rewrite contrast_unparsed in Haa by (left; exact Ei). discriminate. }
  destruct (unparsed (hexOf cj)) eqn:Ej.
  { rewrite contrast_unparsed in Haa by (right; exact Ej). discriminate. }
  split; reflexivity.
Qed.

End Unparsed.

Lemma findAccessiblePairs_parsed_witness :
  Forall (fun p => unparsed (AccessibilityChecker.text p) = false
                   /\ unparsed (AccessibilityChecker.background p) = false)
         (findAccessiblePairs (fun x _ => x)
            [("text"%string, HexString "#000"); ("primary"%string, HexString "#000000");
             ("background"%string, HexString "#FFFFFF")]).
Proof. apply findAccessiblePairs_parsed. reflexivity. Defined.

(** ** Seeds, fallbacks and stored pairs *)

(** *** Seeds *)

Lemma hue_numbers_exact : forallb (fun z => trunc (of_Z z) =? z) hueRange = true.
Proof. vm_compute. reflexivity. Qed.

Lemma of_Z_hue_inj (a b : Z) :
  0 <= a < 360 -> 0 <= b < 360 -> of_Z a = of_Z b -> a = b.
Proof.
  intros Ha Hb E. pose proof hue_numbers_exact as A. rewrite forallb_forall in A.
  pose proof (A a (in_hueRange a Ha)) as Ea. pose proof (A b (in_hueRange b Hb)) as Eb.
  apply Z.eqb_eq in Ea, Eb. rewrite <- Ea, <- Eb, E. reflexivity.
Qed.

(** X18. The three seed hues of [generate] are the base hue and the hues
    120 and 240 degrees further round the wheel: three different integers
    of [[0, 360)]. *)
Theorem generate_seeds_spread (type why : string) (Htype : ownKeyOnly type = true) :
  let b := specBaseHue type why in
  _generateBaseHue type why = of_Z b
  /\ seedsOf (_generateBaseHue type why)
     = [of_Z b; of_Z ((b + 120) mod 360); of_Z ((b + 240) mod 360)]
  /\ NoDup (seedsOf (_generateBaseHue type why))
  /\ Forall (fun seed => 0 <= seed < 360) [b; (b + 120) mod 360; (b + 240) mod 360].
Proof.
  cbv zeta. pose proof (specBaseHue_range type why) as Hb.
  set (b := specBaseHue type why) in *.
  assert (Hbase : _generateBaseHue type why = of_Z b)
    by (apply generateBaseHue_plain, Htype).
  assert (E : seedsOf (_generateBaseHue type why)
              = [of_Z b; of_Z ((b + 120) mod 360); of_Z ((b + 240) mod 360)]).
  { rewrite Hbase. apply seedsOf_int, Hb. }
  pose proof (Z.mod_pos_bound (b + 120) 360 ltac:(lia)) as R1.
  pose proof (Z.mod_pos_bound (b + 240) 360 ltac:(lia)) as R2.
  assert (H1 : (b + 120) mod 360 = b + 120 \/ (b + 120) mod 360 = b - 240).
  { destruct (Z_lt_ge_dec b 240).
    - left. apply Z.mod_small. lia.
    - right. symmetry. apply (Z.mod_unique _ _ 1); lia. }
  assert (H2 : (b + 240) mod 360 = b + 240 \/ (b + 240) mod 360 = b - 120).
  { destruct (Z_lt_ge_dec b 120).
    - left. apply Z.mod_small. lia.
    - right. symmetry. apply (Z.mod_unique _ _ 1); lia. }
  split; [exact Hbase|]. split; [exact E|]. split.
  - rewrite E. repeat constructor; cbn [In]; intros H;
      repeat (destruct H as [H|H]; [apply of_Z_hue_inj in H; lia|]); exact H.
  - repeat constructor; lia.
Qed.

Lemma generate_seeds_spread_witness :
  seedsOf (_generateBaseHue "web-dashboard" "Z") = [of_Z 210; of_Z 330; of_Z 90].
Proof. apply (generate_seeds_spread "web-dashboard" "Z"). reflexivity. Defined.

(** *** Unknown moods *)

Lemma unknown_mood_tables (mood : string) :
  ownKeyOnly mood = true -> knownMood mood = false ->
  lookup moodNames mood = Absent /\ lookup moodDescriptions mood = Absent.
Proof.
  intros Hown H. apply ownKeyOnly_existsb in Hown.
  unfold lookup. rewrite Hown.
  unfold knownMood in H. unfold moodNames, moodDescriptions. cbn [ownProperty].
  rewrite !(String.eqb_sym _ mood).
  destruct (mood =? "warm")%string; [discriminate H|].
  destruct (mood =? "cool")%string; [discriminate H|].
  destruct (mood =? "pastel")%string; [discriminate H|].
  destruct (mood =? "dark")%string; [discriminate H|]. split; reflexivity.
Qed.

(** X19. A mood that [generate] does not know is treated as cool: same
    colours, same names and same accessible pairs as with the cool mood;
    only the vibe differs, it starts with the fallback description. *)
Theorem generate_unknown_mood (Math_pow : number -> number -> number)
    (inheritedText : string -> string) (type why mood : string)
    (Htype : ownKeyOnly type = true) (Hown : ownKeyOnly mood = true)
    (Hmood : knownMood mood = false) :
  exists unknown cool,
    generate Math_pow inheritedText (mkPreferences type why mood) = Return unknown
    /\ generate Math_pow inheritedText (mkPreferences type why "cool") = Return cool
    /\ map colors unknown = map colors cool
    /\ map name unknown = map name cool
    /\ map accessiblePairs unknown = map accessiblePairs cool
    /\ Forall (fun p => vibe p = ("Balanced and harmonious with "
                                  ++ match ownProperty typeDescriptions type with
                                     | Some t => t
                                     | None => "versatile application"
                                     end)%string) unknown.
Proof.
  destruct (unknown_mood_tables mood Hown Hmood) as [Hn Hd].
  pose proof (ownKeyOnly_existsb _ Htype) as Ht.
  assert (Hv : _generateVibeDescription inheritedText mood type
               = Return ("Balanced and harmonious with "
                         ++ match ownProperty typeDescriptions type with
                            | Some t => t
                            | None => "versatile application"
                            end)%string).
  { unfold _generateVibeDescription. cbv zeta. rewrite Hd.
    unfold lookup. rewrite Ht.
    unfold typeDescriptions. cbn [ownProperty].
    repeat match goal with
           | |- context [String.eqb ?k type] => destruct (String.eqb k type)
           end; reflexivity. }
  destruct (vibe_plain inheritedText "cool" type eq_refl) as [vibe Hc].
  do 2 eexists.
  split; [apply (generate_Return Math_pow inheritedText (mkPreferences type why mood) _ Hv)|].
  split; [apply (generate_Return Math_pow inheritedText
                   (mkPreferences type why "cool") _ Hc)|].
  unfold paletteAt, paletteOf. cbv zeta.
  cbn [appType purpose colorMood map colors name accessiblePairs PaletteGenerator.vibe].
  rewrite !(moodPalette_cool mood _ (or_intror Hmood)).
  change (moodPalette "cool") with generateCoolPalette.
  unfold _generatePaletteName. rewrite Hn.
  change (lookup moodNames "cool") with (Own coolNames).
  repeat split. repeat constructor.
Qed.

Lemma generate_unknown_mood_witness :
  exists unknown cool,
    generate (fun x _ => x) (fun key => key) (mkPreferences "saas" "Z" "sunny")
    = Return unknown
    /\ generate (fun x _ => x) (fun key => key) (mkPreferences "saas" "Z" "cool")
       = Return cool
    /\ map colors unknown = map colors cool.
Proof.
  destruct (generate_unknown_mood (fun x _ => x) (fun key => key) "saas" "Z" "sunny"
              eq_refl eq_refl eq_refl) as (unknown & cool & Eu & Ec & Hc & _).
  exists unknown, cool. repeat split; assumption.
Defined.

(** *** Accessible pairs of generated palettes *)

(** X20. The accessible pairs stored in a generated palette are made of
    that palette's own colours: text and background of every pair are hexes
    of two of its six roles, each [#] with six upper-case digits. *)
Theorem generate_pairs_of_palette (Math_pow : number -> number -> number)
    (inheritedText : string -> string)
    (preferences : Preferences) (Hplain : plainPreferences preferences = true) :
  exists ps,
    generate Math_pow inheritedText preferences = Return ps
    /\ List.length ps = 3%nat
    /\ Forall (fun p =>
                 let hexes := map (fun e => hex (snd e)) (Object_entries (colors p)) in
                 Forall (fun q => In (AccessibilityChecker.text q) hexes
                                  /\ In (AccessibilityChecker.background q) hexes
                                  /\ canonicalHex (AccessibilityChecker.text q) = true
                                  /\ canonicalHex (AccessibilityChecker.background q) = true)
                        (accessiblePairs p))
              ps.
Proof.
  apply andb_true_iff in Hplain as [Htype Hmood].
  destruct (generate_returns Math_pow inheritedText preferences Hmood) as [vibe E].
  eexists. split; [exact E|]. split; [reflexivity|].
  pose proof (generate_canonical Math_pow inheritedText preferences _ E) as Hall.
  rewrite Forall_forall in Hall.
  apply Forall_forall. intros p Hin. cbv zeta.
  assert (Hpairs : accessiblePairs p
                   = findAccessiblePairs Math_pow
                       (map (fun e => (fst e, ColorObject (snd e)))
                            (Object_entries (colors p)))).
  { cbn [In] in Hin. destruct Hin as [<-|[<-|[<-|[]]]]; reflexivity. }
  pose proof (Hall p Hin) as Hcanon.
  unfold allCanonical in Hcanon. rewrite forallb_forall in Hcanon.
  rewrite Hpairs. apply Forall_forall. intros q Hq.
  unfold findAccessiblePairs in Hq.
  apply in_flat_map in Hq as (i & _ & Hq).
  apply in_flat_map in Hq as (j & _ & Hq).
  apply pairAt_shape in Hq as (_ & ri & ci & rj & cj & Hi & Hj & -> & -> & _).
  apply nth_error_In, in_map_iff in Hi as (ei & Ei & Hi).
  apply nth_error_In, in_map_iff in Hj as (ej & Ej & Hj).
  injection Ei as _ <-. injection Ej as _ <-. cbn [hexOf].
  repeat split.
  - apply (in_map (fun e => hex (snd e))), Hi.
  - apply (in_map (fun e => hex (snd e))), Hj.
  - apply Hcanon, Hi.
  - apply Hcanon, Hj.
Qed.

Lemma generate_pairs_of_palette_witness :
  exists ps,
    generate (fun x _ => x) (fun key => key) (mkPreferences "playful" "Z" "dark") = Return ps
    /\ List.length ps = 3%nat
    /\ Forall (fun p =>
                 let hexes := map (fun e => hex (snd e)) (Object_entries (colors p)) in
                 Forall (fun q => In (AccessibilityChecker.text q) hexes
                                  /\ In (AccessibilityChecker.background q) hexes
                                  /\ canonicalHex (AccessibilityChecker.text q) = true
                                  /\ canonicalHex (AccessibilityChecker.background q) = true)
                        (accessiblePairs p))
              ps.
Proof. apply generate_pairs_of_palette. reflexivity. Defined.

Import ExportManager.

(** ** The export formats *)

(** A string without the character [c]. *)
Fixpoint free_of (c : ascii) (s : string) : bool :=
  match s with
  | EmptyString => true
  | String a s' => negb (Ascii.eqb a c) && free_of c s'
  end.

Lemma free_of_app (c : ascii) (s t : string) :
  free_of c (s ++ t) = free_of c s && free_of c t.
Proof. induction s as [|a s IH]; simpl; [reflexivity | now rewrite IH, andb_assoc]. Qed.

(** Two texts cut at the first [c] agree piece by piece. *)
Lemma sep_inj (c : ascii) (x y r r' : string) :
  free_of c x = true -> free_of c y = true ->
  (x ++ String c r = y ++ String c r')%string -> x = y /\ r = r'.
Proof.
  revert y. induction x as [|a x IH]; intros [|b y] Hx Hy E; simpl in *.
  - injection E as E. now split.
  - injection E as Ec _. subst b. rewrite Ascii.eqb_refl in Hy. discriminate Hy.
  - injection E as Ec _. subst a. rewrite Ascii.eqb_refl in Hx. discriminate Hx.
  - injection E as Eab E. subst b.
    apply andb_true_iff in Hx as [_ Hx]. apply andb_true_iff in Hy as [_ Hy].
    destruct (IH y Hx Hy E) as [-> ->]. now split.
Qed.

Lemma join_inj (c : ascii) (l l' : list string) :
  List.length l = List.length l' ->
  Forall (fun s => free_of c s = true) l -> Forall (fun s => free_of c s = true) l' ->
  join (String c "") l = join (String c "") l' -> l = l'.
Proof.
  revert l'. induction l as [|x xs IH]; intros [|y ys] Hlen Hl Hl' E;
    try discriminate Hlen; [reflexivity|].
  inversion Hl as [|? ? Hx Hxs]; subst. inversion Hl' as [|? ? Hy Hys]; subst.
  injection Hlen as Hlen.
  destruct xs as [|x2 xs], ys as [|y2 ys]; try discriminate Hlen.
  - cbn in E. now subst.
  - change (join (String c "") (x :: x2 :: xs))
      with (x ++ String c (join (String c "") (x2 :: xs)))%string in E.
    change (join (String c "") (y :: y2 :: ys))
      with (y ++ String c (join (String c "") (y2 :: ys)))%string in E.
    destruct (sep_inj c _ _ _ _ Hx Hy E) as [-> E'].
    f_equal. apply IH; [exact Hlen | assumption | assumption | exact E'].
Qed.

Lemma append_inv_last (c : ascii) (a b : string) :
  (a ++ String c "" = b ++ String c "")%string -> a = b.
Proof.
  revert b. induction a as [|x a IH]; intros [|y b] E; simpl in *.
  - reflexivity.
  - injection E as _ E. destruct b; discriminate E.
  - injection E as _ E. destruct a; discriminate E.
  - injection E as -> E. f_equal. now apply IH.
Qed.

Definition hexesOf (p : Palette) : list string :=
  map (fun e => hex (snd e)) (Object_entries (colors p)).

Definition singleLine (s : string) : bool := free_of LF s.

(** X21. The CSS export loses no colour: two palettes whose hexes hold no
    line feed and which export to the same CSS text have the same six
    hexes, role by role. *)
Theorem exportAsCSS_lossless (p p' : Palette)
    (Hp : Forall (fun h => singleLine h = true) (hexesOf p))
    (Hp' : Forall (fun h => singleLine h = true) (hexesOf p'))
    (Hcss : exportAsCSS p = exportAsCSS p') :
  hexesOf p = hexesOf p'.
Proof.
  unfold exportAsCSS in Hcss. cbv zeta in Hcss.
  unfold hexesOf, Object_entries in *. cbn [map fst snd app] in *.
  repeat match goal with
         | H : Forall _ (_ :: _) |- _ => inversion H; subst; clear H
         end.
  apply join_inj in Hcss;
    [ | reflexivity
      | repeat constructor; rewrite !free_of_app; unfold singleLine in *;
        repeat match goal with H : free_of LF _ = true |- _ => rewrite H; clear H end;
        reflexivity
      | repeat constructor; rewrite !free_of_app; unfold singleLine in *;
        repeat match goal with H : free_of LF _ = true |- _ => rewrite H; clear H end;
        reflexivity ].
  injection Hcss as E1 E2 E3 E4 E5 E6.
  apply append_inv_last in E1, E2, E3, E4, E5, E6.
  congruence.
Qed.

Lemma exportAsCSS_lossless_witness :
  hexesOf (mkPalette "Sunset Glow" "Warm and inviting" (generateWarmPalette 0%float) [])
  = hexesOf (mkPalette "Desert Heat" "Warm" (generateWarmPalette 360%float) []).
Proof. apply exportAsCSS_lossless; [repeat constructor .. | reflexivity]. Defined.

(** X22. The plain-text export loses nothing it prints: two palettes
    whose names, vibes and hexes hold no line feed and which export to the
    same text have the same name, the same vibe and the same six hexes. *)
Theorem exportAsPlainText_lossless (p p' : Palette)
    (Hn : singleLine (name p) = true) (Hn' : singleLine (name p') = true)
    (Hv : singleLine (vibe p) = true) (Hv' : singleLine (vibe p') = true)
    (Hp : Forall (fun h => singleLine h = true) (hexesOf p))
    (Hp' : Forall (fun h => singleLine h = true) (hexesOf p'))
    (Htxt : exportAsPlainText p = exportAsPlainText p') :
  name p = name p' /\ vibe p = vibe p' /\ hexesOf p = hexesOf p'.
Proof.
  unfold exportAsPlainText in Htxt. cbv zeta in Htxt.
  unfold hexesOf, Object_entries in *. cbn [map fst snd app] in *.
  repeat match goal with
         | H : Forall _ (_ :: _) |- _ => inversion H; subst; clear H
         end.
  apply join_inj in Htxt;
    [ | reflexivity
      | repeat constructor; rewrite ?free_of_app; unfold singleLine in *;
        repeat match goal with H : free_of LF _ = true |- _ => rewrite H; clear H end;
        reflexivity
      | repeat constructor; rewrite ?free_of_app; unfold singleLine in *;
        repeat match goal with H : free_of LF _ = true |- _ => rewrite H; clear H end;
        reflexivity ].
  injection Htxt as En Ev E1 E2 E3 E4 E5 E6.
  repeat split; congruence.
Qed.

Lemma exportAsPlainText_lossless_witness :
  hexesOf (mkPalette "Sunset Glow" "Warm" (generateWarmPalette 0%float) [])
  = hexesOf (mkPalette "Sunset Glow" "Warm" (generateWarmPalette 360%float) []).
Proof.
  apply exportAsPlainText_lossless; [reflexivity .. | repeat constructor | repeat constructor | reflexivity].
Defined.
